(** * etl-sales-dashboard: the ETL job (etl.py) and the dashboard (app.py)

    A shallow embedding of the two Python units of the repository.

    - [Py] holds the Python built-ins the code calls on strings and numbers.
    - [Etl] embeds [extract], [transform], [load] and the [__main__] block of
      etl.py as state-passing code over a world made of the file system, the
      heap of data-frame objects, the SQL databases with their connections
      and the log.
    - [App] embeds the filter, the KPIs and the page of app.py over a table
      of sales records.

    Modelling conventions.
    - Text is a [string] of bytes; the string built-ins are embedded for
      ASCII text (bytes above 127 are neither whitespace nor letters here).
    - A missing value (NaN, None, NaT) is [None].
    - Amounts are exact rationals [Q]; the rounding of binary floating point
      is not modelled, so sums and quotients are the exact ones. *)

From Stdlib Require Import QArith Qround Qabs Lqa Ascii String Sorted.
From stdpp Require Import gmap strings list fin_maps pretty.

Open Scope string_scope.

(* ===================================================================== *)
(** * Python built-ins *)
(* ===================================================================== *)

Module Py.

(** [str.isspace] on one ASCII character: tab, line feed, vertical tab, form
    feed, carriage return, the four separators 0x1c-0x1f and the space. *)
Definition is_space (a : ascii) : bool :=
  let n := nat_of_ascii a in
  ((9 <=? n)%nat && (n <=? 13)%nat) || ((28 <=? n)%nat && (n <=? 32)%nat).

(** [str.lstrip()] *)
Fixpoint lstrip (s : string) : string :=
  match s with
  | EmptyString => EmptyString
  | String a s' => if is_space a then lstrip s' else s
  end.

(** [str.rstrip()] *)
Fixpoint rstrip (s : string) : string :=
  match s with
  | EmptyString => EmptyString
  | String a s' =>
      match rstrip s' with
      | EmptyString => if is_space a then EmptyString else String a EmptyString
      | t => String a t
      end
  end.

(** [str.strip()] *)
Definition strip (s : string) : string := rstrip (lstrip s).

(** One character of [str.lower()]: 'A'..'Z' move to 'a'..'z'. *)
Definition lower_ascii (a : ascii) : ascii :=
  let n := nat_of_ascii a in
  if ((65 <=? n)%nat && (n <=? 90)%nat) then ascii_of_nat (n + 32) else a.

Fixpoint map_string (f : ascii -> ascii) (s : string) : string :=
  match s with
  | EmptyString => EmptyString
  | String a s' => String (f a) (map_string f s')
  end.

(** [str.lower()] *)
Definition lower (s : string) : string := map_string lower_ascii s.

(** [str.replace(old, new)] for one-character [old] and [new]. *)
Definition replace (old new : ascii) (s : string) : string :=
  map_string (fun a => if Ascii.eqb a old then new else a) s.

(** A text of whitespace only. *)
Definition all_space (s : string) : Prop :=
  forall a, In a (list_ascii_of_string s) -> is_space a = true.

(** [len(...)] printed inside an f-string. *)
Definition str_of_len {A} (l : list A) : string := pretty (length l).

(** Two amounts are the same value when numerator and denominator agree. *)
#[global] Instance Q_eq_dec : EqDecision Q.
Proof. solve_decision. Defined.

(** An exception with its message, [str(e)]. *)
Inductive exn := Exception (msg : string).

Definition exn_msg (e : exn) : string := let 'Exception m := e in m.

(** What a call gives: a value, or the exception it raises. *)
Inductive result (A : Type) :=
| Ok (a : A)
| Raise (e : exn).
Arguments Ok {A} a.
Arguments Raise {A} e.

#[global] Instance result_ret : MRet result := @Ok.
#[global] Instance result_bind : MBind result :=
  fun A B k m => match m with Ok a => k a | Raise e => Raise e end.

(** [t[i]] on a tuple or a list, for an index from 0. *)
Definition index {A} (l : list A) (i : nat) : result A :=
  match l !! i with
  | Some a => Ok a
  | None => Raise (Exception "tuple index out of range")
  end.

End Py.

(* ===================================================================== *)
(** * etl.py *)
(* ===================================================================== *)

Module Etl.
Import Py.

(** A cell of a data frame as [read_csv] produces it. *)
Inductive value :=
| VNum (q : Q)
| VStr (s : string).

(** [None] is a missing field (NaN). *)
Definition cell := option value.

Record DataFrame := mkDataFrame {
  columns : list string;
  rows : list (list cell)
}.

Inductive level := INFO | ERROR.

(** References to data-frame objects. *)
Definition ref := nat.

(** What the job reads and writes: [read_csv] gives what [pd.read_csv] returns
    for a path (a frame, or the exception it raises); [heap] holds the
    data-frame objects; [dbs] maps a connection string to the tables of that
    database; [log] is logs/etl.log, oldest line first; [connect] gives the
    exception the engine raises when a connection to a database is opened,
    if it raises one (an unreachable server, a file that cannot be opened,
    a connection string no driver understands). *)
Record World := mkWorld {
  read_csv : string -> result DataFrame;
  heap : gmap nat DataFrame;
  dbs : gmap string (gmap string DataFrame);
  log : list (level * string);
  connect : string -> option exn
}.

Definition set_heap (h : gmap nat DataFrame) (w : World) : World :=
  mkWorld (read_csv w) h (dbs w) (log w) (connect w).
Definition set_dbs (d : gmap string (gmap string DataFrame)) (w : World) : World :=
  mkWorld (read_csv w) (heap w) d (log w) (connect w).
Definition add_log (l : level) (m : string) (w : World) : World :=
  mkWorld (read_csv w) (heap w) (dbs w) (log w ++ [(l, m)]) (connect w).

(** Computations that read and write the world and may raise. *)
Definition M (A : Type) : Type := World -> result A * World.

Definition ret {A} (a : A) : M A := fun w => (Ok a, w).
Definition raise {A} (e : exn) : M A := fun w => (Raise e, w).
Definition bind {A B} (k : A -> M B) (m : M A) : M B :=
  fun w => match m w with
           | (Ok a, w') => k a w'
           | (Raise e, w') => (Raise e, w')
           end.

#[global] Instance M_ret : MRet M := @ret.
#[global] Instance M_bind : MBind M := @bind.

(** [try: body except Exception as e: logger.error(f"{what}: {e}"); raise] *)
Definition try_log {A} (what : string) (body : M A) : M A :=
  fun w => match body w with
           | (Ok a, w') => (Ok a, w')
           | (Raise e, w') => (Raise e, add_log ERROR (what ++ ": " ++ exn_msg e) w')
           end.

Definition logger_info (m : string) : M unit := fun w => (Ok tt, add_log INFO m w).

(** A new data-frame object. *)
Definition alloc (df : DataFrame) : M ref :=
  fun w => let l := fresh (dom (heap w)) in (Ok l, set_heap (<[l := df]> (heap w)) w).

(** The object behind a reference; a name bound to no data frame has none of
    its attributes. *)
Definition deref (l : ref) : M DataFrame :=
  fun w => match heap w !! l with
           | Some df => (Ok df, w)
           | None => (Raise (Exception "object is not a DataFrame"), w)
           end.

Definition store (l : ref) (df : DataFrame) : M unit :=
  fun w => (Ok tt, set_heap (<[l := df]> (heap w)) w).

(** [pd.read_csv(path)] *)
Definition pd_read_csv (path : string) : M ref :=
  fun w => match read_csv w path with
           | Ok df => alloc df w
           | Raise e => (Raise e, w)
           end.

(** [df.columns = names] *)
Definition set_columns (l : ref) (names : list string) : M unit :=
  df ← deref l; store l (mkDataFrame names (rows df)).

(** A row with no missing field. *)
Definition complete (r : list cell) : bool := forallb (fun c => bool_decide (is_Some c)) r.

(** [df.dropna(inplace=True)] *)
Definition dropna_inplace (l : ref) : M unit :=
  df ← deref l; store l (mkDataFrame (columns df) (List.filter complete (rows df))).

(** [c.strip().lower().replace(" ", "_")] *)
Definition normalize (c : string) : string :=
  Py.replace " "%char "_"%char (Py.lower (Py.strip c)).

Definition extract (path : string) : M ref :=
  try_log "Extraction failed" (
    df ← pd_read_csv path;
    d ← deref df;
    logger_info ("Extracted " ++ Py.str_of_len (rows d) ++ " rows from " ++ path);;
    mret df).

Definition transform (df : ref) : M ref :=
  try_log "Transformation failed" (
    d ← deref df;
    set_columns df (List.map normalize (columns d));;
    dropna_inplace df;;
    d' ← deref df;
    logger_info ("Transformed dataset, now " ++ Py.str_of_len (rows d') ++ " rows");;
    mret df).

(** The first column name that repeats an earlier one. *)
Fixpoint first_duplicate (seen : list string) (cols : list string) : option string :=
  match cols with
  | [] => None
  | c :: t => if decide (c ∈ seen) then Some c else first_duplicate (c :: seen) t
  end.

(** What stops a write of the frame [d] as table [name] before anything is
    written: the connection that does not open, or a table definition with
    two columns of one name, which the SQL toolkit refuses to build. *)
Definition write_error (w : World) (db_url name : string) (d : DataFrame) : option exn :=
  match connect w db_url with
  | Some e => Some e
  | None =>
      match first_duplicate [] (columns d) with
      | Some c => Some (Exception ("A column with name '" ++ c
                                   ++ "' is already present in table '" ++ name ++ "'."))
      | None => None
      end
  end.

(** The table [name] of the database at [db_url] becomes [d], unless the
    write is stopped, and then the database is as it was; a database never
    written to has no table. *)
Definition replace_table (db_url name : string) (d : DataFrame) : M unit :=
  fun w => match write_error w db_url name d with
           | Some e => (Raise e, w)
           | None =>
               (Ok tt, set_dbs (<[db_url := <[name := d]> (default ∅ (dbs w !! db_url))]>
                                  (dbs w)) w)
           end.

(** [df.to_sql(name, engine, if_exists="replace", index=False)]: the table is
    dropped if it exists and created anew from the frame. *)
Definition to_sql_replace (l : ref) (name db_url : string) : M unit :=
  d ← deref l; replace_table db_url name d.

Definition load (df : ref) (db_url : string) : M unit :=
  try_log "Load failed" (
    to_sql_replace df "sales" db_url;;
    logger_info "Data loaded into DB successfully").

(** The configuration module the job imports. *)
Record Config := mkConfig {
  RAW_DATA_PATH : string;
  DB_URL : string
}.

(** The [if __name__ == "__main__":] block. *)
Definition main (config : Config) : M unit :=
  df ← extract (RAW_DATA_PATH config);
  df ← transform df;
  load df (DB_URL config).


(** ** The transform step in the words of its description *)

(** [t] is [s] without its surrounding whitespace. *)
Definition trimmed (s t : string) : Prop :=
  exists pre post : string,
    s = pre ++ t ++ post /\
    (forall a, In a (list_ascii_of_string pre) -> Py.is_space a = true) /\
    (forall a, In a (list_ascii_of_string post) -> Py.is_space a = true) /\
    (forall a t', t = String a t' -> Py.is_space a = false) /\
    (forall t' a, t = t' ++ String a EmptyString -> Py.is_space a = false).

(** The character a cleaned name has where the trimmed one has [a]. *)
Definition spec_char (a : ascii) : ascii :=
  if Ascii.eqb a " "%char then "_"%char
  else if (Ascii.leb "A"%char a && Ascii.leb a "Z"%char)%bool
       then ascii_of_nat (nat_of_ascii a + 32) else a.

(** [n] is the name [c] trimmed, lowercased and with "_" for every space. *)
Definition spec_name (c n : string) : Prop :=
  exists t, trimmed c t /\
    list_ascii_of_string n = List.map spec_char (list_ascii_of_string t).

#[global] Instance value_eq_dec : EqDecision value.
Proof. solve_decision. Defined.

(** A record with one or more missing fields. *)
Definition incomplete (r : list cell) : Prop := None ∈ r.

#[global] Instance incomplete_dec (r : list cell) : Decision (incomplete r).
Proof. unfold incomplete. apply _. Defined.

Definition count_incomplete (rs : list (list cell)) : nat :=
  length (filter incomplete rs).

(** What [transform] leaves in the object it is given. *)
Definition cleaned (df : DataFrame) : DataFrame :=
  mkDataFrame (List.map normalize (columns df)) (List.filter complete (rows df)).

(** What [lower()] and then [replace(" ", "_")] make of one character. *)
Definition clean_char (a : ascii) : ascii :=
  if Ascii.eqb (lower_ascii a) " " then "_"%char else lower_ascii a.

(** ** A sample run *)

(** A raw record set of two records, the second without its [sales]. *)
Definition raw_sample : DataFrame :=
  mkDataFrame [" Order Date "; "Sales"]
    [ [Some (VStr "31/01/2024"); Some (VNum 100)];
      [Some (VStr "01/02/2024"); None] ].

(** A world with that record set as object 0 and no readable file. *)
Definition world_sample : World :=
  mkWorld (fun _ => Raise (Exception "No such file or directory"))
          {[ 0%nat := raw_sample ]} ∅ [] (fun _ => None).

(** A configuration, and a world where its source file reads as the sample
    record set and nothing else exists yet. *)
Definition config_sample : Config := mkConfig "data/raw_sales.csv" "sqlite:///sales.db".

Definition world_file : World :=
  mkWorld (fun path => if String.eqb path "data/raw_sales.csv" then Ok raw_sample
                       else Raise (Exception "No such file or directory"))
          ∅ ∅ [] (fun _ => None).

(** A record set with two columns whose names differ only in case and
    surrounding blanks. *)
Definition raw_collision : DataFrame :=
  mkDataFrame [" Sales"; "sales"] [ [Some (VNum 1); Some (VNum 2)] ].

Definition world_collision : World :=
  mkWorld (fun _ => Raise (Exception "No such file or directory"))
          {[ 0%nat := raw_collision ]} ∅ [] (fun _ => None).


Definition world_file_offline : World :=
  mkWorld (fun path => if String.eqb path "data/raw_sales.csv" then Ok raw_sample
                       else Raise (Exception "No such file or directory"))
          ∅ ∅ [] (fun _ => Some (Exception "unable to open database file")).

End Etl.

(* ===================================================================== *)
(** * app.py *)
(* ===================================================================== *)

Module App.
Import Py.

(** ** Dates *)

(** A [pd.Timestamp] at midnight: the dates of the table carry no time. *)
Record Timestamp := mkTimestamp {
  year : Z;
  month : Z;
  day : Z
}.

#[global] Instance Timestamp_eq_dec : EqDecision Timestamp.
Proof. solve_decision. Defined.

(** [a <= b] on timestamps. *)
Definition ts_leb (a b : Timestamp) : bool :=
  (year a <? year b)%Z
  || ((year a =? year b)%Z
      && ((month a <? month b)%Z
          || ((month a =? month b)%Z && (day a <=? day b)%Z))).

Definition is_leap (y : Z) : bool :=
  ((y mod 4 =? 0)%Z && negb (y mod 100 =? 0)%Z) || (y mod 400 =? 0)%Z.

Definition days_in_month (y m : Z) : Z :=
  if (m =? 2)%Z then (if is_leap y then 29 else 28)%Z
  else if ((m =? 4) || (m =? 6) || (m =? 9) || (m =? 11))%Z then 30%Z
  else 31%Z.

(** The dates a [datetime64[ns]] column can hold. *)
Definition ts_min : Timestamp := mkTimestamp 1677 9 22.
Definition ts_max : Timestamp := mkTimestamp 2262 4 11.

Definition valid_date (y m d : Z) : bool :=
  (1 <=? m)%Z && (m <=? 12)%Z && (1 <=? d)%Z && (d <=? days_in_month y m)%Z
  && ts_leb ts_min (mkTimestamp y m d) && ts_leb (mkTimestamp y m d) ts_max.

Definition digit_of (a : ascii) : option Z :=
  let n := nat_of_ascii a in
  if ((48 <=? n)%nat && (n <=? 57)%nat) then Some (Z.of_nat (n - 48)) else None.

Fixpoint number_of (s : list ascii) (acc : Z) : option Z :=
  match s with
  | [] => Some acc
  | a :: t => match digit_of a with
              | Some d => number_of t (10 * acc + d)%Z
              | None => None
              end
  end.

(** [s.split(sep)] on the characters of a string. *)
Fixpoint split_on (sep : ascii) (s : list ascii) : list (list ascii) :=
  match s with
  | [] => [[]]
  | a :: t =>
      if Ascii.eqb a sep then [] :: split_on sep t
      else match split_on sep t with
           | [] => [[a]]
           | f :: fs => (a :: f) :: fs
           end
  end.

(** One or two digits for the day and the month, four for the year. *)
Definition short_field (f : list ascii) : option Z :=
  if ((1 <=? length f)%nat && (length f <=? 2)%nat) then number_of f 0 else None.
Definition year_field (f : list ascii) : option Z :=
  if (length f =? 4)%nat then number_of f 0 else None.

(** One value of the column read as a date in the format the code's comment
    names, DD/MM/YYYY, or MM/DD/YYYY when [dayfirst] is off; [None] when the
    text is no such date. *)
Definition parse_date (dayfirst : bool) (s : string) : option Timestamp :=
  match split_on "/"%char (list_ascii_of_string s) with
  | [f1; f2; f3] =>
      match short_field f1, short_field f2, year_field f3 with
      | Some a, Some b, Some y =>
          let d := if dayfirst then a else b in
          let m := if dayfirst then b else a in
          if valid_date y m d then Some (mkTimestamp y m d) else None
      | _, _, _ => None
      end
  | _ => None
  end.

Inductive errors_mode := errors_raise | errors_coerce.

(** [pd.to_datetime(col, dayfirst=..., errors=...)] on texts of that one
    format: a missing value stays missing; a text that is no date raises
    under [errors="raise"] and becomes NaT under [errors="coerce"]. The other
    spellings the library reads, and its choice of one format for a whole
    column, are not embedded. *)
Fixpoint to_datetime (dayfirst : bool) (errors : errors_mode)
    (col : list (option string)) : result (list (option Timestamp)) :=
  match col with
  | [] => Ok []
  | None :: t => r ← to_datetime dayfirst errors t; mret (None :: r)
  | Some s :: t =>
      match parse_date dayfirst s, errors with
      | Some d, _ => r ← to_datetime dayfirst errors t; mret (Some d :: r)
      | None, errors_coerce => r ← to_datetime dayfirst errors t; mret (None :: r)
      | None, errors_raise => Raise (Exception ("Unknown datetime string format: " ++ s))
      end
  end.

(** ** The sales table *)

(** A row of the [sales] table as the database holds it, the date as text.
    The table is written by the ETL job, whose transform removes every row
    with a missing field; the dashboard itself guards [region] and
    [category] with [dropna()], and dates become missing when they do not
    parse. *)
Record SqlRow := mkSqlRow {
  sql_order_date : option string;
  sql_region : option string;
  sql_category : option string;
  sql_product_name : string;
  sql_customer_id : string;
  sql_sales : Q
}.

(** A row of the data frame the dashboard works on: the date, the region and
    the category may be missing, the other fields are populated. *)
Record Row := mkRow {
  order_date : option Timestamp;
  region : option string;
  category : option string;
  product_name : string;
  customer_id : string;
  sales : Q
}.

Abbreviation DataFrame := (list Row).

(** [df["order_date"] = dates] *)
Definition with_dates (r : SqlRow) (d : option Timestamp) : Row :=
  mkRow d (sql_region r) (sql_category r) (sql_product_name r)
        (sql_customer_id r) (sql_sales r).

(** [pd.read_sql("SELECT * FROM sales", engine)]; [None] is a database
    without the table. *)
Definition read_sql_sales (table : option (list SqlRow)) : result (list SqlRow) :=
  match table with
  | Some t => Ok t
  | None => Raise (Exception "no such table: sales")
  end.

(** One call of [load_data]; [st.cache_data] hands the same frame to every
    later call of the process. *)
Definition load_data (table : option (list SqlRow)) : result DataFrame :=
  df ← read_sql_sales table;
  dates ← to_datetime true errors_coerce (List.map sql_order_date df);
  mret (zip_with with_dates df dates).

(** ** Series *)

(** [s.dropna()] *)
Definition dropna {A} (s : list (option A)) : list A := omap id s.

(** [s.unique()]: the values in order of first appearance. *)
Fixpoint unique_from {A} `{EqDecision A} (seen : list A) (s : list A) : list A :=
  match s with
  | [] => []
  | a :: t => if decide (a ∈ seen) then unique_from seen t
              else a :: unique_from (a :: seen) t
  end.
Definition unique {A} `{EqDecision A} (s : list A) : list A := unique_from [] s.

(** [s.nunique()] *)
Definition nunique {A} `{EqDecision A} (s : list A) : nat := length (unique s).

(** [s.isin(values)]; a missing value is in no selection. *)
Definition isin (s : list (option string)) (values : list string) : list bool :=
  List.map (fun v => match v with
                     | Some x => bool_decide (x ∈ values)
                     | None => false
                     end) s.

(** [s.between(left, right)], both ends included; NaT compares false. *)
Definition between (s : list (option Timestamp)) (left right : Timestamp) : list bool :=
  List.map (fun v => match v with
                     | Some t => ts_leb left t && ts_leb t right
                     | None => false
                     end) s.

(** [a & b] *)
Definition series_and (a b : list bool) : list bool := zip_with andb a b.

(** [df.loc[mask]] *)
Fixpoint loc {A} (df : list A) (mask : list bool) : list A :=
  match df, mask with
  | r :: df', b :: mask' => if b then r :: loc df' mask' else loc df' mask'
  | _, _ => []
  end.

(** [s.sum()] *)
Definition series_sum (s : list Q) : Q := fold_right Qplus 0%Q s.

(** [s.mean()]; [None] is NaN, the mean of nothing. *)
Definition series_mean (s : list Q) : option Q :=
  match s with
  | [] => None
  | _ => Some (series_sum s / inject_Z (Z.of_nat (length s)))%Q
  end.

(** ** Group-by and aggregation *)

(** One more row of key [k] and amount [v] in the running sums, the groups
    in order of first appearance. *)
Fixpoint add_to {K} `{EqDecision K} (k : K) (v : Q) (acc : list (K * Q)) : list (K * Q) :=
  match acc with
  | [] => [(k, v)]
  | (k', v') :: t =>
      if decide (k = k') then (k', (v' + v)%Q) :: t
      else (k', v') :: add_to k v t
  end.

(** One row taken into the running sums; a row whose key is missing is in no
    group. *)
Definition step {K} `{EqDecision K} (key : Row -> option K)
    (acc : list (K * Q)) (r : Row) : list (K * Q) :=
  match key r with
  | Some k => add_to k (sales r) acc
  | None => acc
  end.

(** The sum of [sales] per key. *)
Definition aggregate {K} `{EqDecision K} (key : Row -> option K) (df : DataFrame)
    : list (K * Q) :=
  fold_left (step key) df [].

(** The amount the running sums hold for key [k]. *)
Definition total_of {K} `{EqDecision K} (k : K) (acc : list (K * Q)) : Q :=
  series_sum (List.map snd (filter (fun p => p.1 = k) acc)).

Fixpoint insert_by {K} (leb : K -> K -> bool) (p : K * Q) (l : list (K * Q)) : list (K * Q) :=
  match l with
  | [] => [p]
  | q :: t => if leb p.1 q.1 then p :: l else q :: insert_by leb p t
  end.

(** The groups in the order of their keys. *)
Definition sort_index {K} (leb : K -> K -> bool) (l : list (K * Q)) : list (K * Q) :=
  fold_right (insert_by leb) [] l.

(** [df.groupby(key)['sales'].sum()]: one entry per key present, keys sorted. *)
Definition groupby_sum {K} `{EqDecision K} (leb : K -> K -> bool)
    (key : Row -> option K) (df : DataFrame) : list (K * Q) :=
  sort_index leb (aggregate key df).

(** The running maximum of [idxmax]: a later entry wins only when greater. *)
Fixpoint idxmax_from {K} (bk : K) (bv : Q) (s : list (K * Q)) : K :=
  match s with
  | [] => bk
  | (k, v) :: t => if Qle_bool v bv then idxmax_from bk bv t else idxmax_from k v t
  end.

(** [s.idxmax()]: the label of the first greatest value. *)
Definition idxmax {K} (s : list (K * Q)) : result K :=
  match s with
  | [] => Raise (Exception "attempt to get argmax of an empty sequence")
  | (k, v) :: t => Ok (idxmax_from k v t)
  end.

(** Rounding to the nearest integer, halves to the even one. *)
Definition rint (x : Q) : Z :=
  let f := Qfloor x in
  match (x - inject_Z f ?= 1 # 2)%Q with
  | Lt => f
  | Gt => (f + 1)%Z
  | Eq => if Z.even f then f else (f + 1)%Z
  end.

(** [x.round(2)] *)
Definition round2 (x : Q) : Q := (inject_Z (rint (x * 100)) / 100)%Q.

(** ** Formatting *)

(** A comma before every group of three digits. *)
Fixpoint commas (ds : list ascii) : list ascii :=
  match ds with
  | [] => []
  | d :: t =>
      d :: (if ((0 <? length t)%nat && (length t mod 3 =? 0)%nat)
            then ","%char :: commas t else commas t)
  end.

Definition pad2 (n : Z) : string :=
  if (n <? 10)%Z then "0" ++ pretty n else pretty n.

(** [f"{x:,.2f}"] *)
Definition fmt_comma_2f (x : option Q) : string :=
  match x with
  | None => "nan"
  | Some q =>
      let c := rint (Qabs q * 100) in
      (if Qle_bool 0 q then "" else "-")
      ++ string_of_list_ascii (commas (list_ascii_of_string (pretty (c / 100)%Z)))
      ++ "." ++ pad2 (c mod 100)
  end.

(** [f"${x:,.2f}"] *)
Definition fmt_money (x : option Q) : string := "$" ++ fmt_comma_2f x.

(** ** Filters *)

(** What the three controls return. *)
Record Selection := mkSelection {
  regions : list string;
  categories : list string;
  date_range : list Timestamp
}.

(** The options and defaults of the two multiselects. *)
Definition region_options (df : DataFrame) : list string :=
  unique (dropna (List.map region df)).
Definition category_options (df : DataFrame) : list string :=
  unique (dropna (List.map category df)).

(** The mask; [pd.to_datetime] of a date of the control is that date at
    midnight. *)
Definition mask (df : DataFrame) (sel : Selection) : result (list bool) :=
  d0 ← index (date_range sel) 0;
  d1 ← index (date_range sel) 1;
  mret (series_and
          (series_and (isin (List.map region df) (regions sel))
                      (isin (List.map category df) (categories sel)))
          (between (List.map order_date df) d0 d1)).

Definition filtered_df (df : DataFrame) (sel : Selection) : result DataFrame :=
  m ← mask df sel; mret (loc df m).

(** ** KPIs *)

Definition total_sales (fdf : DataFrame) : Q := series_sum (List.map sales fdf).

Definition avg_order_value (fdf : DataFrame) : option Q :=
  series_mean (List.map sales fdf).

Definition unique_customers (fdf : DataFrame) : nat :=
  nunique (List.map customer_id fdf).

(** [fdf.empty] *)
Definition empty {A} (l : list A) : bool := match l with [] => true | _ => false end.

Definition top_product (fdf : DataFrame) : result string :=
  if negb (empty fdf)
  then idxmax (groupby_sum String.leb (fun r => Some (product_name r)) fdf)
  else Ok "N/A".

Definition region_share (fdf : DataFrame) : list (string * Q) :=
  if negb (Qle_bool (total_sales fdf) 0)
  then List.map (fun g => (g.1, round2 (g.2 / total_sales fdf * 100)))
                (groupby_sum String.leb region fdf)
  else [].

Definition best_region (fdf : DataFrame) : result string :=
  if negb (empty (region_share fdf)) then idxmax (region_share fdf) else Ok "N/A".

(** ** The page *)

(** [ts.to_period("M")] *)
Definition period := (Z * Z)%type.
Definition to_period_M (t : Timestamp) : period := (year t, month t).
Definition period_leb (a b : period) : bool :=
  (a.1 <? b.1)%Z || ((a.1 =? b.1)%Z && (a.2 <=? b.2)%Z).
(** [str(period)] *)
Definition period_str (p : period) : string := pretty p.1 ++ "-" ++ pad2 p.2.

Inductive figure :=
| px_bar (x y title : string) (data : list (string * Q))
| px_line (x y title : string) (data : list (string * Q)).

Inductive payload :=
| csv_of (rows : DataFrame)
| excel_of (sheet_name : string) (rows : DataFrame).

Inductive element :=
| st_metric (label value : string)
| st_plotly_chart (fig : figure)
| st_warning (body : string)
| st_subheader (body : string)
| st_download_button (label file_name mime : string) (data : payload).

Definition monthly_sales (fdf : DataFrame) : list (string * Q) :=
  List.map (fun g => (period_str g.1, g.2))
           (groupby_sum period_leb (fun r => to_period_M <$> order_date r) fdf).

Definition kpis (fdf : DataFrame) : result (list element) :=
  tp ← top_product fdf;
  br ← best_region fdf;
  mret [ st_metric "Total Sales" (fmt_money (Some (total_sales fdf)));
         st_metric "Avg Order Value" (fmt_money (avg_order_value fdf));
         st_metric "Customers" (pretty (unique_customers fdf));
         st_metric "Top Product" tp;
         st_metric "Best Region" br ].

Definition charts (fdf : DataFrame) : list element :=
  if negb (empty fdf)
  then [ st_plotly_chart (px_bar "region" "sales" "Sales by Region"
                                 (groupby_sum String.leb region fdf));
         st_plotly_chart (px_line "order_date" "sales" "Monthly Sales Trend"
                                  (monthly_sales fdf)) ]
  else [ st_warning "No data matches the selected filters." ].

(** The most rows and columns a sheet holds. *)
Definition excel_max_rows : Z := 1048576.
Definition excel_max_cols : Z := 16384.

(** The columns of the [sales] table. *)
Definition n_columns : Z := 6.

(** [df.to_csv(buffer, index=False)] *)
Definition to_csv (fdf : DataFrame) : payload := csv_of fdf.

(** [df.to_excel(writer, index=False, sheet_name=...)]: a frame with more rows
    than a sheet holds is refused. *)
Definition to_excel (sheet_name : string) (fdf : DataFrame) : result payload :=
  if (excel_max_rows <? Z.of_nat (length fdf))%Z
  then Raise (Exception ("This sheet is too large! Your sheet size is: "
                         ++ pretty (Z.of_nat (length fdf)) ++ ", " ++ pretty n_columns
                         ++ " Max sheet size is: " ++ pretty excel_max_rows ++ ", "
                         ++ pretty excel_max_cols))
  else Ok (excel_of sheet_name fdf).

(** The export section once both buffers are written. *)
Definition export_controls (csv xlsx : payload) : list element :=
  [ st_subheader "📥 Export Data";
    st_download_button "Download as CSV" "filtered_sales.csv" "text/csv" csv;
    st_download_button "Download as Excel" "filtered_sales.xlsx"
      "application/vnd.openxmlformats-officedocument.spreadsheetml.sheet" xlsx ].

(** The export section of a subset that fits a sheet. *)
Definition exports (fdf : DataFrame) : list element :=
  export_controls (to_csv fdf) (excel_of "Sales" fdf).

(** What the script shows below the filter controls; it stops with the
    exception of the spreadsheet writer when the subset does not fit a
    sheet. *)
Definition page (df : DataFrame) (sel : Selection) : result (list element) :=
  fdf ← filtered_df df sel;
  k ← kpis fdf;
  xlsx ← to_excel "Sales" fdf;
  mret (k ++ charts fdf ++ export_controls (to_csv fdf) xlsx)%list.

Definition is_chart (e : element) : bool :=
  match e with st_plotly_chart _ => true | _ => false end.

(** The three tests of the mask on one row. *)
Definition keep (rs cs : list string) (d1 d2 : Timestamp) (r : Row) : bool :=
  match region r with Some x => bool_decide (x ∈ rs) | None => false end
  && match category r with Some x => bool_decide (x ∈ cs) | None => false end
  && match order_date r with
     | Some t => ts_leb d1 t && ts_leb t d2
     | None => false
     end.

(** ** The filter and the metrics in the words of their description *)

(** [a] is no later than [b]. *)
Definition ts_le (a b : Timestamp) : Prop :=
  (year a < year b)%Z
  \/ (year a = year b
      /\ ((month a < month b)%Z \/ (month a = month b /\ (day a <= day b)%Z))).

#[global] Instance ts_le_dec a b : Decision (ts_le a b).
Proof. unfold ts_le. apply _. Defined.

(** The record's date lies in the interval, both ends included. *)
Definition date_within (d1 d2 : Timestamp) (r : Row) : Prop :=
  match order_date r with
  | Some t => ts_le d1 t /\ ts_le t d2
  | None => False
  end.

#[global] Instance date_within_dec d1 d2 r : Decision (date_within d1 d2 r).
Proof. unfold date_within. destruct (order_date r); apply _. Defined.

(** The record passes the three filters: its region is an allowed region, its
    category an allowed category, its date in the interval. *)
Definition passes (allowed_regions allowed_categories : list string)
    (d1 d2 : Timestamp) (r : Row) : Prop :=
  region r ∈ Some <$> allowed_regions
  /\ category r ∈ Some <$> allowed_categories
  /\ date_within d1 d2 r.

#[global] Instance passes_dec rs cs d1 d2 r : Decision (passes rs cs d1 d2 r).
Proof. unfold passes. apply _. Defined.

(** The summed [sales] of the records of key [k]. *)
Definition group_total {K} `{EqDecision K} (key : Row -> option K) (k : K)
    (df : DataFrame) : Q :=
  series_sum (List.map sales (filter (fun r => key r = Some k) df)).

(** The summed [sales] of a product over the subset. *)
Definition product_sales (p : string) (fdf : DataFrame) : Q :=
  series_sum (List.map sales (filter (fun r => product_name r = p) fdf)).

(** The summed [sales] of a region over the subset. *)
Definition region_sales (g : string) (fdf : DataFrame) : Q :=
  series_sum (List.map sales (filter (fun r => region r = Some g) fdf)).

(** A region's percentage share of the total. *)
Definition exact_share (g : string) (fdf : DataFrame) : Q :=
  region_sales g fdf / total_sales fdf * 100.

(** A region's percentage share of the total, to two decimals. *)
Definition share_of (g : string) (fdf : DataFrame) : Q :=
  round2 (region_sales g fdf / total_sales fdf * 100).

(** The order of two entries of a series sorted by [leb] on the labels. *)
Definition key_le {K} (leb : K -> K -> bool) (p q : K * Q) : Prop :=
  leb p.1 q.1 = true.

(** ** The bounds of the date control *)

(** The earlier and the later of two timestamps. *)
Definition ts_min2 (a b : Timestamp) : Timestamp := if ts_leb a b then a else b.
Definition ts_max2 (a b : Timestamp) : Timestamp := if ts_leb a b then b else a.

(** [s.min()] and [s.max()] on a date column: NaT is skipped, and the result
    is NaT, [None], when the column holds no date. *)
Definition series_min (s : list (option Timestamp)) : option Timestamp :=
  match dropna s with
  | [] => None
  | t :: ts => Some (fold_left ts_min2 ts t)
  end.
Definition series_max (s : list (option Timestamp)) : option Timestamp :=
  match dropna s with
  | [] => None
  | t :: ts => Some (fold_left ts_max2 ts t)
  end.

Definition min_date (df : DataFrame) : option Timestamp :=
  series_min (List.map order_date df).
Definition max_date (df : DataFrame) : option Timestamp :=
  series_max (List.map order_date df).

(** ** Sample tables *)

(** The two rows of the scenario of the description. *)
Definition row_eu : Row :=
  mkRow (Some (mkTimestamp 2024 1 5)) (Some "EU") (Some "A") "widget" "c1" 100.
Definition row_us : Row :=
  mkRow (Some (mkTimestamp 2024 2 10)) (Some "US") (Some "B") "gadget" "c2" 50.
(** A refund: a row with a negative amount. *)
Definition row_refund : Row :=
  mkRow (Some (mkTimestamp 2024 1 5)) (Some "EU") (Some "A") "widget" "c1" (-5).
(** A row whose date did not parse. *)
Definition row_nat : Row :=
  mkRow None (Some "EU") (Some "A") "widget" "c3" 10.

Definition select_all : Selection :=
  mkSelection ["EU"; "US"] ["A"; "B"] [mkTimestamp 2024 1 1; mkTimestamp 2024 12 31].

(** Two regions of nearly equal sales, 49999 and 50001. *)
Definition row_north : Row :=
  mkRow (Some (mkTimestamp 2024 3 1)) (Some "North") (Some "A") "widget" "c1" 49999.
Definition row_south : Row :=
  mkRow (Some (mkTimestamp 2024 3 2)) (Some "South") (Some "A") "gadget" "c2" 50001.

Definition select_north_south : Selection :=
  mkSelection ["North"; "South"] ["A"] [mkTimestamp 2024 1 1; mkTimestamp 2024 12 31].

End App.

(* ===================================================================== *)
(** * Properties of the string built-ins *)
(* ===================================================================== *)

Module PySpec.
Import Py.

Lemma all_space_empty : all_space "".
Proof. intros a []. Qed.

Lemma all_space_cons a s : is_space a = true -> all_space s -> all_space (String a s).
Proof. intros Ha Hs b [<- | Hb]; [exact Ha | exact (Hs b Hb)]. Qed.

Lemma append_nil_l (s : string) : "" ++ s = s.
Proof. reflexivity. Qed.

Lemma append_cons a (s t : string) : String a s ++ t = String a (s ++ t).
Proof. reflexivity. Qed.

Lemma append_snoc_nonempty t a : t ++ String a "" <> "".
Proof. destruct t; discriminate. Qed.

(** [lstrip] removes a prefix of whitespace and stops at the first other
    character. *)
Lemma lstrip_split s :
  exists pre, s = pre ++ lstrip s /\ all_space pre /\
    forall a t, lstrip s = String a t -> is_space a = false.
Proof.
  induction s as [| a s IH]; simpl.
  - exists "". split; [reflexivity |]. split; [apply all_space_empty | discriminate].
  - destruct (is_space a) eqn:Ha.
    + destruct IH as (pre & Heq & Hpre & Hhd).
      exists (String a pre). rewrite append_cons, <- Heq. split; [reflexivity |].
      split; [by apply all_space_cons | exact Hhd].
    + exists "". split; [reflexivity |]. split; [apply all_space_empty |].
      intros b t [= <- _]. exact Ha.
Qed.

Lemma rstrip_cons a s :
  rstrip (String a s) = String a (rstrip s)
  \/ (rstrip (String a s) = "" /\ rstrip s = "" /\ is_space a = true).
Proof.
  simpl. destruct (rstrip s) eqn:Hr.
  - destruct (is_space a); [right; done | left; done].
  - left; done.
Qed.

Lemma snoc_eq_single t a b : t ++ String a "" = String b "" -> a = b.
Proof.
  destruct t as [| c t]; rewrite ?append_nil_l, ?append_cons.
  - by intros [= ->].
  - intros [= _ H]. by apply append_snoc_nonempty in H.
Qed.

(** [rstrip] removes a suffix of whitespace and leaves a text that does not
    end with whitespace. *)
Lemma rstrip_split s :
  exists post, s = rstrip s ++ post /\ all_space post /\
    forall t a, rstrip s = t ++ String a "" -> is_space a = false.
Proof.
  induction s as [| a s IH].
  - exists "". split; [reflexivity |]. split; [apply all_space_empty |].
    intros t a H. simpl in H. symmetry in H. by apply append_snoc_nonempty in H.
  - destruct IH as (post & Heq & Hpost & Hlast).
    destruct (rstrip_cons a s) as [Hc | (Hc & Hr & Ha)]; rewrite Hc.
    + exists post. rewrite append_cons, <- Heq. split; [reflexivity |].
      split; [exact Hpost |].
      intros [| c t] d H; rewrite ?append_nil_l, ?append_cons in H.
      * injection H as Had Hr. subst d.
        simpl in Hc. rewrite Hr in Hc. destruct (is_space a) eqn:Ha; [discriminate | done].
      * injection H as _ H. by apply (Hlast t d).
    + rewrite Hr, append_nil_l in Heq. subst post.
      exists (String a s). split; [reflexivity |].
      split; [by apply all_space_cons |].
      intros t c H. symmetry in H. by apply append_snoc_nonempty in H.
Qed.

(** [rstrip] leaves the first character where it is. *)
Lemma rstrip_head s :
  (forall a t, s = String a t -> is_space a = false) ->
  forall a t, rstrip s = String a t -> is_space a = false.
Proof.
  intros Hs a t H. destruct s as [| b s]; [discriminate |].
  destruct (rstrip_cons b s) as [Hc | (Hc & _)]; rewrite Hc in H; [| discriminate].
  injection H as <- _. by apply (Hs b s).
Qed.

Lemma list_ascii_of_map_string f s :
  list_ascii_of_string (map_string f s) = List.map f (list_ascii_of_string s).
Proof. induction s as [| a s IH]; simpl; [reflexivity | by rewrite IH]. Qed.

Lemma append_assoc (a b c : string) : (a ++ b) ++ c = a ++ (b ++ c).
Proof.
  induction a as [| x a IH]; [reflexivity |].
  by rewrite !append_cons, IH.
Qed.

(** What [strip] returns is the text without its surrounding whitespace. *)
Lemma strip_split s :
  exists pre post, s = pre ++ strip s ++ post /\ all_space pre /\ all_space post /\
    (forall a t, strip s = String a t -> is_space a = false) /\
    (forall t a, strip s = t ++ String a "" -> is_space a = false).
Proof.
  destruct (lstrip_split s) as (pre & Hpre & Hsp & Hhd).
  destruct (rstrip_split (lstrip s)) as (post & Hpost & Hsq & Hlast).
  exists pre, post. unfold strip. rewrite <- Hpost.
  repeat split; try assumption.
  by apply rstrip_head.
Qed.

(** Lowering a character and then writing "_" for the space, in one table. *)
Lemma lower_replace_char a :
  (if Ascii.eqb (lower_ascii a) " " then "_"%char else lower_ascii a)
  = (if Ascii.eqb a " " then "_"%char
     else if (Ascii.leb "A" a && Ascii.leb a "Z")%bool
          then ascii_of_nat (nat_of_ascii a + 32) else a).
Proof.
  destruct a as [[] [] [] [] [] [] [] []]; vm_compute; reflexivity.
Qed.

End PySpec.

(* ===================================================================== *)
(** * Properties of the ETL job *)
(* ===================================================================== *)

Module EtlSpec.
Import Py Etl.

Ltac run := unfold mbind, M_bind, bind, mret, M_ret, ret; simpl.

Lemma deref_some w l df : heap w !! l = Some df -> deref l w = (Ok df, w).
Proof. intros H. unfold deref. by rewrite H. Qed.

Lemma set_columns_run w l df names :
  heap w !! l = Some df ->
  set_columns l names w
  = (Ok tt, set_heap (<[l := mkDataFrame names (rows df)]> (heap w)) w).
Proof. intros H. unfold set_columns. run. by rewrite (deref_some _ _ _ H). Qed.

Lemma dropna_inplace_run w l df :
  heap w !! l = Some df ->
  dropna_inplace l w
  = (Ok tt, set_heap (<[l := mkDataFrame (columns df) (List.filter complete (rows df))]> (heap w)) w).
Proof. intros H. unfold dropna_inplace. run. by rewrite (deref_some _ _ _ H). Qed.

(** One run of [transform] on an allocated frame, step by step. *)
Lemma transform_run w l df :
  heap w !! l = Some df ->
  transform l w
  = (Ok l,
     add_log INFO ("Transformed dataset, now "
                   ++ str_of_len (rows (cleaned df)) ++ " rows")
       (set_heap (<[l := cleaned df]> (heap w)) w)).
Proof.
  intros H. unfold transform, try_log. run.
  rewrite (deref_some _ _ _ H).
  rewrite (set_columns_run _ _ _ _ H).
  erewrite dropna_inplace_run by (simpl; apply lookup_insert_eq).
  simpl. rewrite insert_insert_eq.
  erewrite deref_some by (simpl; apply lookup_insert_eq).
  unfold logger_info. reflexivity.
Qed.

Lemma normalize_spec_name c : spec_name c (normalize c).
Proof.
  destruct (PySpec.strip_split c) as (pre & post & Heq & Hpre & Hpost & Hhd & Hlast).
  exists (strip c). split.
  - exists pre, post. repeat split; assumption.
  - unfold normalize, replace, lower.
    rewrite !PySpec.list_ascii_of_map_string, List.map_map.
    apply List.map_ext. intros a. apply PySpec.lower_replace_char.
Qed.

Lemma complete_iff r : complete r = true <-> ~ incomplete r.
Proof.
  unfold complete, incomplete. induction r as [| c r IH]; simpl.
  - split; [intros _ H; inversion H | done].
  - rewrite andb_true_iff, IH, bool_decide_eq_true, not_elem_of_cons.
    split.
    + intros [[v ->] Hr]. split; [discriminate | exact Hr].
    + intros [Hc Hr]. split; [| exact Hr]. destruct c; [eauto | congruence].
Qed.

Lemma filter_complete_length rs :
  (length (List.filter complete rs) + count_incomplete rs = length rs)%nat.
Proof.
  unfold count_incomplete. induction rs as [| r rs IH]; [reflexivity |].
  rewrite filter_cons. simpl.
  destruct (complete r) eqn:Hc; destruct (decide (incomplete r)) as [Hi | Hi]; simpl.
  - apply complete_iff in Hc. contradiction.
  - lia.
  - lia.
  - apply complete_iff in Hi. congruence.
Qed.

Lemma filter_complete_sublist rs : sublist (List.filter complete rs) rs.
Proof.
  induction rs as [| r rs IH]; simpl; [constructor |].
  destruct (complete r); by constructor.
Qed.

(** C2. For a raw record set held in the object [l], [transform] succeeds and
    leaves in that object a frame whose every column name is the old name
    trimmed of surrounding whitespace, lowercased and with "_" for every
    space, and whose records are exactly the input records without a missing
    field, in their order; the row count is the input row count minus the
    number of records with one or more missing fields. *)
Theorem transform_renames_then_drops (w : World) (l : ref) (df : DataFrame) :
  heap w !! l = Some df ->
  exists w' df',
    transform l w = (Ok l, w') /\
    heap w' !! l = Some df' /\
    Forall2 spec_name (columns df) (columns df') /\
    (forall r, r ∈ rows df' <-> r ∈ rows df /\ ~ incomplete r) /\
    sublist (rows df') (rows df) /\
    length (rows df') = (length (rows df) - count_incomplete (rows df))%nat.
Proof.
  intros H. eexists _, (cleaned df). split; [apply (transform_run _ _ _ H) |].
  split; [simpl; apply lookup_insert_eq |].
  split; [| split; [| split]]; simpl.
  - induction (columns df) as [| c cs IH]; simpl; constructor;
      [apply normalize_spec_name | exact IH].
  - intros r. rewrite !list_elem_of_In, List.filter_In, complete_iff. reflexivity.
  - apply filter_complete_sublist.
  - pose proof (filter_complete_length (rows df)). lia.
Qed.

Lemma transform_renames_then_drops_witness :
  heap world_sample !! 0%nat = Some raw_sample /\
  exists w' df',
    transform 0%nat world_sample = (Ok 0%nat, w') /\
    heap w' !! 0%nat = Some df' /\
    Forall2 spec_name (columns raw_sample) (columns df') /\
    (forall r, r ∈ rows df' <-> r ∈ rows raw_sample /\ ~ incomplete r) /\
    sublist (rows df') (rows raw_sample) /\
    length (rows df') = (length (rows raw_sample) - count_incomplete (rows raw_sample))%nat.
Proof.
  split; [reflexivity |].
  apply (transform_renames_then_drops world_sample 0%nat raw_sample). reflexivity.
Defined.

(** C10. [transform] works on the object it is given: it returns the very
    reference it received, the renamed and filtered frame is stored in that
    object, every other object is left as it was, and whenever the cleaning
    changes anything the caller's reference no longer leads to the raw
    record set. *)
Theorem transform_mutates_in_place (w : World) (l : ref) (df : DataFrame) :
  heap w !! l = Some df ->
  exists w',
    transform l w = (Ok l, w') /\
    heap w' = <[l := cleaned df]> (heap w) /\
    heap w' !! l = Some (cleaned df) /\
    (forall l', l' <> l -> heap w' !! l' = heap w !! l') /\
    (cleaned df <> df -> heap w' !! l <> Some df).
Proof.
  intros H. eexists. split; [apply (transform_run _ _ _ H) |]. simpl.
  split; [reflexivity |]. split; [apply lookup_insert_eq |]. split.
  - intros l' Hne. by rewrite lookup_insert_ne.
  - intros Hne. rewrite lookup_insert_eq. congruence.
Qed.

Lemma transform_mutates_in_place_witness :
  heap world_sample !! 0%nat = Some raw_sample /\
  exists w',
    transform 0%nat world_sample = (Ok 0%nat, w') /\
    heap w' = <[0%nat := cleaned raw_sample]> (heap world_sample) /\
    heap w' !! 0%nat = Some (cleaned raw_sample) /\
    (forall l', l' <> 0%nat -> heap w' !! l' = heap world_sample !! l') /\
    (cleaned raw_sample <> raw_sample -> heap w' !! 0%nat <> Some raw_sample).
Proof.
  split; [reflexivity |].
  apply (transform_mutates_in_place world_sample 0%nat raw_sample). reflexivity.
Defined.

Lemma extract_ok w path raw :
  read_csv w path = Ok raw ->
  extract path w
  = (Ok (fresh (dom (heap w))),
     add_log INFO ("Extracted " ++ str_of_len (rows raw) ++ " rows from " ++ path)
       (set_heap (<[fresh (dom (heap w)) := raw]> (heap w)) w)).
Proof.
  intros H. unfold extract, try_log, pd_read_csv, alloc. run. rewrite H.
  erewrite deref_some by (simpl; apply lookup_insert_eq). reflexivity.
Qed.

Lemma extract_fail w path e :
  read_csv w path = Raise e ->
  extract path w = (Raise e, add_log ERROR ("Extraction failed: " ++ exn_msg e) w).
Proof.
  intros H. unfold extract, try_log, pd_read_csv. run. by rewrite H.
Qed.








End EtlSpec.

(* ===================================================================== *)
(** * Properties of the dashboard *)
(* ===================================================================== *)

Module AppSpec.
Import Py App.

(** ** Masks *)

Lemma zip_with_map_same {A B C D} (f : B -> C -> D) (g : A -> B) (h : A -> C) (l : list A) :
  zip_with f (List.map g l) (List.map h l) = List.map (fun a => f (g a) (h a)) l.
Proof. induction l as [| a l IH]; simpl; [reflexivity | by rewrite IH]. Qed.

Lemma loc_map {A} (f : A -> bool) (l : list A) : loc l (List.map f l) = List.filter f l.
Proof.
  induction l as [| a l IH]; simpl; [reflexivity |].
  rewrite IH. reflexivity.
Qed.

Lemma filter_bool_decide {A} (P : A -> Prop) `{!forall a, Decision (P a)}
    (f : A -> bool) (l : list A) :
  (forall a, f a = true <-> P a) -> List.filter f l = filter P l.
Proof.
  intros Hf. induction l as [| a l IH]; [reflexivity |].
  rewrite filter_cons. simpl. rewrite IH.
  destruct (f a) eqn:Ha; destruct (decide (P a)) as [Hp | Hp]; try reflexivity.
  - apply Hf in Ha. contradiction.
  - apply Hf in Hp. congruence.
Qed.

Lemma ts_leb_le a b : ts_leb a b = true <-> ts_le a b.
Proof. unfold ts_leb, ts_le. destruct a, b; simpl. lia. Qed.

Lemma in_some_fmap (o : option string) (l : list string) :
  match o with Some x => bool_decide (x ∈ l) | None => false end = true
  <-> o ∈ Some <$> l.
Proof.
  rewrite list_elem_of_fmap. destruct o as [x |].
  - rewrite bool_decide_eq_true. split.
    + intros H. by exists x.
    + intros (y & [= ->] & H). exact H.
  - split; [discriminate | intros (y & [=] & _)].
Qed.

Lemma keep_passes rs cs d1 d2 r : keep rs cs d1 d2 r = true <-> passes rs cs d1 d2 r.
Proof.
  unfold keep, passes, date_within.
  rewrite !andb_true_iff, !in_some_fmap.
  destruct (order_date r) as [t |].
  - rewrite andb_true_iff, !ts_leb_le. tauto.
  - intuition discriminate.
Qed.

(** The mask of the script, row by row. *)
Lemma filtered_df_filter df rs cs d1 d2 :
  filtered_df df (mkSelection rs cs [d1; d2]) = Ok (List.filter (keep rs cs d1 d2) df).
Proof.
  unfold filtered_df, mask, isin, between, series_and. simpl.
  rewrite !List.map_map, !zip_with_map_same, <- loc_map. reflexivity.
Qed.

(** C1. For every table, every set of allowed regions, every set of allowed
    categories and every interval [d1, d2], the filtered subset is the table
    restricted, in order and with repetitions, to the records that pass the
    three filters; so a record is in it exactly when it is in the table, its
    region is allowed, its category is allowed and its date lies between d1
    and d2, both included. *)
Theorem filtered_subset_iff (df : DataFrame) (rs cs : list string) (d1 d2 : Timestamp) :
  exists fdf,
    filtered_df df (mkSelection rs cs [d1; d2]) = Ok fdf /\
    fdf = filter (passes rs cs d1 d2) df /\
    forall r, r ∈ fdf <->
      r ∈ df /\ region r ∈ Some <$> rs /\ category r ∈ Some <$> cs
      /\ exists t, order_date r = Some t /\ ts_le d1 t /\ ts_le t d2.
Proof.
  eexists. split; [apply filtered_df_filter |].
  assert (Hf : List.filter (keep rs cs d1 d2) df = filter (passes rs cs d1 d2) df)
    by (apply filter_bool_decide, keep_passes).
  split; [exact Hf |].
  intros r. rewrite Hf, list_elem_of_filter. unfold passes, date_within.
  destruct (order_date r) as [t |].
  - split.
    + intros [(Hr & Hc & Hd) Hin]. eauto 10.
    + intros (Hin & Hr & Hc & t' & [= <-] & Hd). tauto.
  - split; [tauto | intros (_ & _ & _ & t' & [=] & _)].
Qed.

(** A filtered subset exists when the date control gave two dates, and then it
    is the table restricted by the three tests. *)
Lemma filtered_df_inv df sel fdf :
  filtered_df df sel = Ok fdf ->
  exists d1 d2,
    date_range sel !! 0%nat = Some d1 /\ date_range sel !! 1%nat = Some d2 /\
    fdf = List.filter (keep (regions sel) (categories sel) d1 d2) df.
Proof.
  unfold filtered_df, mask, index. intros H.
  destruct (date_range sel !! 0%nat) as [d1 |] eqn:H0; [| discriminate].
  destruct (date_range sel !! 1%nat) as [d2 |] eqn:H1; [| discriminate].
  exists d1, d2. split; [reflexivity |]. split; [reflexivity |].
  simpl in H. injection H as <-.
  unfold isin, between, series_and.
  rewrite !List.map_map, !zip_with_map_same, <- loc_map. reflexivity.
Qed.

Lemma keep_not_null rs cs d1 d2 r :
  keep rs cs d1 d2 r = true ->
  is_Some (region r) /\ is_Some (category r) /\ is_Some (order_date r).
Proof.
  unfold keep. destruct (region r), (category r), (order_date r); simpl;
    rewrite ?andb_false_r; try discriminate; eauto.
Qed.

(** The accessor keeps the rows one for one; the date of a row is its text
    read day-first, missing when the text is missing or is no date. *)
Lemma to_datetime_coerce col :
  to_datetime true errors_coerce col
  = Ok (List.map (fun v => v ≫= parse_date true) col).
Proof.
  induction col as [| [s |] col IH]; simpl; [reflexivity | |].
  - destruct (parse_date true s); rewrite IH; reflexivity.
  - rewrite IH. reflexivity.
Qed.

Lemma load_data_rows t :
  load_data (Some t)
  = Ok (List.map (fun r => with_dates r (sql_order_date r ≫= parse_date true)) t).
Proof.
  unfold load_data. simpl. rewrite to_datetime_coerce. simpl. f_equal.
  rewrite List.map_map.
  rewrite <- (List.map_id t) at 1. rewrite zip_with_map_same. reflexivity.
Qed.

(** C9. Whatever the selection, a record of the filtered subset has a region,
    a category and a date: a record that misses one of them is in no filtered
    subset. In particular a row of the table whose date text is no date is
    loaded with a missing date and is left out; and the metrics, charts and
    exports of the page are those of the filtered subset. *)
Theorem null_fields_are_filtered_out (df : DataFrame) (sel : Selection) (fdf : DataFrame) :
  filtered_df df sel = Ok fdf ->
  (forall r, r ∈ fdf ->
     is_Some (region r) /\ is_Some (category r) /\ is_Some (order_date r)) /\
  (forall r, r ∈ df ->
     region r = None \/ category r = None \/ order_date r = None -> r ∉ fdf) /\
  (forall t raw, load_data (Some t) = Ok df -> raw ∈ t ->
     (sql_order_date raw ≫= parse_date true) = None ->
     with_dates raw None ∈ df /\ with_dates raw None ∉ fdf) /\
  (forall els, page df sel = Ok els ->
     exists k, kpis fdf = Ok k /\ els = (k ++ charts fdf ++ exports fdf)%list).
Proof.
  intros H. destruct (filtered_df_inv _ _ _ H) as (d1 & d2 & _ & _ & ->).
  assert (Hin : forall r, r ∈ List.filter (keep (regions sel) (categories sel) d1 d2) df ->
     is_Some (region r) /\ is_Some (category r) /\ is_Some (order_date r)).
  { intros r Hr. apply list_elem_of_In, List.filter_In in Hr as [_ Hk].
    by apply keep_not_null in Hk. }
  assert (Hout : forall r,
     region r = None \/ category r = None \/ order_date r = None ->
     r ∉ List.filter (keep (regions sel) (categories sel) d1 d2) df).
  { intros r Hnull Hr. apply Hin in Hr as ([x Hx] & [y Hy] & [z Hz]).
    destruct Hnull as [Hn | [Hn | Hn]]; congruence. }
  split; [exact Hin |]. split; [intros r _; apply Hout |]. split.
  - intros t raw Hload Hraw Hdate. rewrite load_data_rows in Hload.
    injection Hload as <-. split.
    + apply list_elem_of_In, List.in_map_iff. exists raw.
      rewrite Hdate. split; [reflexivity | by apply list_elem_of_In].
    + apply Hout. right; right; reflexivity.
  - intros els Hp. unfold page in Hp. rewrite H in Hp. simpl in Hp.
    destruct (kpis _) as [k |] eqn:Hk; [| discriminate]. simpl in Hp.
    unfold to_excel in Hp. destruct (excel_max_rows <? _)%Z; [discriminate |].
    injection Hp as <-. by exists k.
Qed.

Lemma null_fields_are_filtered_out_witness :
  filtered_df [row_eu; row_nat] select_all = Ok [row_eu] /\
  forall r, r ∈ [row_eu] ->
    is_Some (region r) /\ is_Some (category r) /\ is_Some (order_date r).
Proof.
  split; [reflexivity |].
  apply (null_fields_are_filtered_out [row_eu; row_nat] select_all [row_eu]).
  reflexivity.
Defined.

(** With everything selected in the two multiselects, their default, a row
    without region, category or date still stays out. *)
Lemma select_all_excludes_nulls (df : DataFrame) (dates : list Timestamp)
    (fdf : DataFrame) (r : Row) :
  filtered_df df (mkSelection (region_options df) (category_options df) dates) = Ok fdf ->
  region r = None \/ category r = None \/ order_date r = None ->
  r ∉ fdf.
Proof.
  intros Hf Hnull Hr.
  destruct (filtered_df_inv _ _ _ Hf) as (d1 & d2 & _ & _ & ->).
  apply list_elem_of_In, List.filter_In in Hr as [_ Hk].
  apply keep_not_null in Hk as ([x Hx] & [y Hy] & [z Hz]).
  destruct Hnull as [Hn | [Hn | Hn]]; congruence.
Qed.

(** ** Group-by *)

Section GroupBy.
Context {K : Type} `{EqDecision K}.
Variable key : Row -> option K.
Implicit Types (k : K) (v : Q) (acc : list (K * Q)) (rest df : DataFrame) (r : Row).

Lemma total_of_cons k k0 v0 acc :
  total_of k ((k0, v0) :: acc)
  = if decide (k0 = k) then (v0 + total_of k acc)%Q else total_of k acc.
Proof.
  unfold total_of. rewrite filter_cons. csimpl.
  destruct (decide (k0 = k)); reflexivity.
Qed.

Lemma total_of_add_to k' k v acc :
  (total_of k' (add_to k v acc)
   == total_of k' acc + (if decide (k = k') then v else 0))%Q.
Proof.
  induction acc as [| [k0 v0] acc IH]; csimpl.
  - rewrite total_of_cons. unfold total_of. csimpl.
    destruct (decide (k = k')); csimpl; lra.
  - destruct (decide (k = k0)) as [-> | Hne]; rewrite !total_of_cons.
    + destruct (decide (k0 = k')); lra.
    + destruct (decide (k0 = k')) as [-> | Hne']; rewrite IH.
      * rewrite decide_False by done. lra.
      * lra.
Qed.

Lemma keys_add_to k v acc :
  (add_to k v acc).*1 = if decide (k ∈ acc.*1) then acc.*1 else (acc.*1 ++ [k])%list.
Proof.
  induction acc as [| [k0 v0] acc IH]; csimpl; [reflexivity |].
  destruct (decide (k = k0)) as [-> | Hne]; csimpl.
  - rewrite decide_True by apply list_elem_of_here. reflexivity.
  - rewrite IH. destruct (decide (k ∈ acc.*1)) as [Hin | Hnin].
    + rewrite decide_True by (by apply list_elem_of_further). reflexivity.
    + rewrite decide_False; [reflexivity |].
      intros [? | ?]%elem_of_cons; contradiction.
Qed.

Lemma NoDup_add_to k v acc : NoDup acc.*1 -> NoDup (add_to k v acc).*1.
Proof.
  intros Hnd. rewrite keys_add_to. destruct (decide (k ∈ acc.*1)); [exact Hnd |].
  apply NoDup_app. split; [exact Hnd |]. split.
  - intros x Hx ->%list_elem_of_singleton. contradiction.
  - apply NoDup_singleton.
Qed.

Lemma elem_of_keys_add_to k' k v acc :
  k' ∈ (add_to k v acc).*1 <-> k' ∈ acc.*1 \/ k' = k.
Proof.
  rewrite keys_add_to. destruct (decide (k ∈ acc.*1)) as [Hin | Hnin].
  - split; [tauto | intros [? | ->]; assumption].
  - rewrite elem_of_app, list_elem_of_singleton. reflexivity.
Qed.

Lemma sum_add_to k v acc :
  (series_sum (add_to k v acc).*2 == series_sum acc.*2 + v)%Q.
Proof.
  induction acc as [| [k0 v0] acc IH]; csimpl.
  - lra.
  - destruct (decide (k = k0)); csimpl; [lra | rewrite IH; lra].
Qed.

Lemma group_total_cons k r df :
  group_total key k (r :: df)
  = if decide (key r = Some k) then (sales r + group_total key k df)%Q
    else group_total key k df.
Proof.
  unfold group_total. rewrite filter_cons.
  destruct (decide (key r = Some k)); reflexivity.
Qed.

Lemma total_of_fold k rest acc :
  (total_of k (fold_left (step key) rest acc) == total_of k acc + group_total key k rest)%Q.
Proof.
  revert acc. induction rest as [| r rest IH]; intros acc; csimpl.
  - unfold group_total. csimpl. lra.
  - rewrite IH, group_total_cons. unfold step.
    destruct (key r) as [k0 |].
    + rewrite total_of_add_to.
      destruct (decide (k0 = k)) as [-> | Hne].
      * rewrite decide_True by reflexivity. lra.
      * rewrite decide_False by congruence. lra.
    + rewrite decide_False by discriminate. lra.
Qed.

Lemma keys_fold k rest acc :
  k ∈ (fold_left (step key) rest acc).*1
  <-> k ∈ acc.*1 \/ exists r, r ∈ rest /\ key r = Some k.
Proof.
  revert acc. induction rest as [| r rest IH]; intros acc; csimpl.
  - split; [tauto | intros [? | (r & Hr & _)]; [assumption | inversion Hr]].
  - rewrite IH. unfold step. split.
    + intros [Hin | (r' & Hr' & Hk)].
      * destruct (key r) as [k0 |] eqn:Hkr; [| tauto].
        apply elem_of_keys_add_to in Hin as [? | ->]; [tauto |].
        right. exists r. split; [apply list_elem_of_here | exact Hkr].
      * right. exists r'. split; [by apply list_elem_of_further | exact Hk].
    + intros [Hin | (r' & Hr' & Hk)].
      * left. destruct (key r); [apply elem_of_keys_add_to; tauto | exact Hin].
      * apply elem_of_cons in Hr' as [-> | Hr'].
        -- left. rewrite Hk. apply elem_of_keys_add_to. tauto.
        -- right. by exists r'.
Qed.

Lemma NoDup_fold rest acc : NoDup acc.*1 -> NoDup (fold_left (step key) rest acc).*1.
Proof.
  revert acc. induction rest as [| r rest IH]; intros acc Hnd; csimpl; [exact Hnd |].
  apply IH. unfold step. destruct (key r); [by apply NoDup_add_to | exact Hnd].
Qed.

Lemma sum_fold rest acc :
  (forall r, r ∈ rest -> is_Some (key r)) ->
  (series_sum (fold_left (step key) rest acc).*2
   == series_sum acc.*2 + series_sum (List.map sales rest))%Q.
Proof.
  revert acc. induction rest as [| r rest IH]; intros acc Hkey; csimpl.
  - lra.
  - rewrite IH by (intros r' Hr'; apply Hkey; by apply list_elem_of_further).
    unfold step. destruct (Hkey r) as [k ->]; [apply list_elem_of_here |].
    rewrite sum_add_to. lra.
Qed.

Lemma total_of_absent k acc : k ∉ acc.*1 -> total_of k acc = 0%Q.
Proof.
  induction acc as [| [k0 v0] acc IH]; [reflexivity |].
  csimpl. intros [Hne Hnin]%not_elem_of_cons. rewrite total_of_cons.
  rewrite decide_False by congruence. by apply IH.
Qed.

Lemma total_of_entry k v acc :
  NoDup acc.*1 -> (k, v) ∈ acc -> (total_of k acc == v)%Q.
Proof.
  induction acc as [| [k0 v0] acc IH]; intros Hnd Hin; [inversion Hin |].
  csimpl in Hnd. apply NoDup_cons in Hnd as [Hnin Hnd].
  rewrite total_of_cons. apply elem_of_cons in Hin as [[= -> ->] | Hin].
  - rewrite decide_True by reflexivity. rewrite total_of_absent by exact Hnin. lra.
  - rewrite decide_False; [by apply IH |].
    intros ->. apply Hnin. apply list_elem_of_fmap. by exists (k, v).
Qed.

Lemma insert_by_perm (leb : K -> K -> bool) p l : insert_by leb p l ≡ₚ p :: l.
Proof.
  induction l as [| q l IH]; csimpl; [reflexivity |].
  destruct (leb p.1 q.1); [reflexivity |].
  rewrite IH. apply Permutation_swap.
Qed.

Lemma sort_index_perm (leb : K -> K -> bool) l : sort_index leb l ≡ₚ l.
Proof.
  induction l as [| p l IH]; csimpl; [reflexivity |].
  rewrite insert_by_perm. by constructor.
Qed.

Lemma series_sum_perm (l1 l2 : list Q) :
  l1 ≡ₚ l2 -> (series_sum l1 == series_sum l2)%Q.
Proof. induction 1; csimpl; lra. Qed.

Lemma aggregate_entry k v df :
  (k, v) ∈ aggregate key df -> (v == group_total key k df)%Q.
Proof.
  intros Hin. unfold aggregate in *.
  rewrite <- (total_of_entry k v _ (NoDup_fold df [] (NoDup_nil_2)) Hin).
  rewrite total_of_fold. unfold total_of. csimpl. lra.
Qed.

(** What [groupby(key)['sales'].sum()] holds: one entry per key present in
    the frame, and with each key the sum of the sales of its rows. *)
Lemma groupby_sum_spec (leb : K -> K -> bool) df :
  NoDup (groupby_sum leb key df).*1 /\
  (forall k, k ∈ (groupby_sum leb key df).*1 <-> exists r, r ∈ df /\ key r = Some k) /\
  (forall k v, (k, v) ∈ groupby_sum leb key df -> (v == group_total key k df)%Q).
Proof.
  unfold groupby_sum.
  pose proof (sort_index_perm leb (aggregate key df)) as Hp.
  split; [| split].
  - rewrite Hp. unfold aggregate. apply NoDup_fold. constructor.
  - intros k. rewrite Hp. unfold aggregate. rewrite keys_fold.
    csimpl. split; [intros [Hin | ?]; [inversion Hin | assumption] | tauto].
  - intros k v Hin. rewrite Hp in Hin. by apply aggregate_entry.
Qed.

(** The groups share out the whole: with no row left without a key, their
    sums add up to the sum of all sales. *)
Lemma groupby_sum_total (leb : K -> K -> bool) df :
  (forall r, r ∈ df -> is_Some (key r)) ->
  (series_sum (groupby_sum leb key df).*2 == series_sum (List.map sales df))%Q.
Proof.
  intros Hkey. unfold groupby_sum.
  rewrite (series_sum_perm _ _ (fmap_Permutation snd _ _ (sort_index_perm leb _))).
  unfold aggregate. rewrite sum_fold by exact Hkey. csimpl. lra.
Qed.

End GroupBy.

(** ** The greatest entry *)

Lemma idxmax_from_spec {K} (bk : K) (bv : Q) (s : list (K * Q)) :
  exists v, (idxmax_from bk bv s, v) ∈ (bk, bv) :: s /\
    forall k' v', (k', v') ∈ (bk, bv) :: s -> (v' <= v)%Q.
Proof.
  revert bk bv. induction s as [| [k v] s IH]; intros bk bv; simpl.
  - exists bv. split; [apply list_elem_of_here |].
    intros k' v' [[= -> ->] | Hin]%elem_of_cons; [lra | inversion Hin].
  - destruct (Qle_bool v bv) eqn:Hle.
    + apply Qle_bool_iff in Hle.
      destruct (IH bk bv) as (m & Hin & Hmax). exists m. split.
      * apply elem_of_cons in Hin as [Heq | Hin]; [rewrite Heq; apply list_elem_of_here |].
        by do 2 apply list_elem_of_further.
      * intros k' v' [[= -> ->] | [[= -> ->] | Hin']%elem_of_cons]%elem_of_cons.
        -- apply (Hmax bk). apply list_elem_of_here.
        -- pose proof (Hmax bk bv (list_elem_of_here _ _)). lra.
        -- apply (Hmax k'). by apply list_elem_of_further.
    + assert (Hlt : (bv < v)%Q).
      { apply Qnot_le_lt. intros Hc. apply Qle_bool_iff in Hc. congruence. }
      destruct (IH k v) as (m & Hin & Hmax). exists m. split.
      * by apply list_elem_of_further.
      * intros k' v' [[= -> ->] | Hin']%elem_of_cons.
        -- pose proof (Hmax k v (list_elem_of_here _ _)). lra.
        -- by apply (Hmax k').
Qed.

(** On a series with an entry, [idxmax] gives the label of an entry no other
    entry exceeds. *)
Lemma idxmax_spec {K} (s : list (K * Q)) :
  s <> [] ->
  exists k v, idxmax s = Ok k /\ (k, v) ∈ s /\ forall k' v', (k', v') ∈ s -> (v' <= v)%Q.
Proof.
  destruct s as [| [bk bv] s]; [done |]. intros _.
  destruct (idxmax_from_spec bk bv s) as (v & Hin & Hmax).
  exists (idxmax_from bk bv s), v. by split.
Qed.

(** ** Rounding *)

Lemma rint_comp (x y : Q) : (x == y)%Q -> rint x = rint y.
Proof.
  intros H. unfold rint.
  assert (Hf : Qfloor x = Qfloor y) by (by rewrite H).
  rewrite Hf.
  assert (Hc : (x - inject_Z (Qfloor y) ?= 1 # 2)%Q = (y - inject_Z (Qfloor y) ?= 1 # 2)%Q)
    by (by rewrite H).
  by rewrite Hc.
Qed.

Lemma round2_comp (x y : Q) : (x == y)%Q -> round2 x = round2 y.
Proof.
  intros H. unfold round2. by rewrite (rint_comp (x * 100) (y * 100)) by (by rewrite H).
Qed.

(** The nearest integer is within one half. *)
Lemma rint_near (x : Q) :
  (- (1 # 2) <= inject_Z (rint x) - x <= 1 # 2)%Q.
Proof.
  pose proof (Qfloor_le x) as Hlo. pose proof (Qlt_floor x) as Hhi.
  assert (Hs : (inject_Z (Qfloor x + 1) == inject_Z (Qfloor x) + 1)%Q)
    by (rewrite inject_Z_plus; reflexivity).
  rewrite Hs in Hhi. unfold rint.
  destruct (x - inject_Z (Qfloor x) ?= 1 # 2)%Q eqn:Hc.
  - apply Qeq_alt in Hc.
    destruct (Z.even (Qfloor x)); rewrite ?Hs; split; lra.
  - apply Qlt_alt in Hc. split; lra.
  - apply Qgt_alt in Hc. rewrite Hs. split; lra.
Qed.

(** Two decimals are within half a hundredth. *)
Lemma round2_near (x : Q) :
  (- (1 # 200) <= round2 x - x <= 1 # 200)%Q.
Proof.
  pose proof (rint_near (x * 100)) as H. unfold round2.
  set (n := inject_Z (rint (x * 100))) in *.
  unfold Qdiv. change (/ 100)%Q with (1 # 100)%Q. split; lra.
Qed.

(** ** The metrics *)

Lemma filtered_not_null df sel fdf :
  filtered_df df sel = Ok fdf ->
  forall r, r ∈ fdf ->
    is_Some (region r) /\ is_Some (category r) /\ is_Some (order_date r).
Proof.
  intros H r Hr. destruct (filtered_df_inv _ _ _ H) as (d1 & d2 & _ & _ & ->).
  apply list_elem_of_In, List.filter_In in Hr as [_ Hk].
  by apply keep_not_null in Hk.
Qed.

Lemma product_group_total p fdf :
  group_total (fun r => Some (product_name r)) p fdf = product_sales p fdf.
Proof.
  unfold group_total, product_sales. f_equal. f_equal.
  apply list_filter_iff. intros r. split; [by intros [= ->] | by intros ->].
Qed.

(** An entry of a group-by series for every key present. *)
Lemma groupby_sum_entry {K} `{EqDecision K} (key : Row -> option K)
    (leb : K -> K -> bool) (df : DataFrame) (r : Row) (k : K) :
  r ∈ df -> key r = Some k ->
  exists v, (k, v) ∈ groupby_sum leb key df /\ (v == group_total key k df)%Q.
Proof.
  intros Hr Hk. destruct (groupby_sum_spec key leb df) as (_ & Hkeys & Hval).
  assert (Hin : k ∈ (groupby_sum leb key df).*1) by (apply Hkeys; eauto).
  apply list_elem_of_fmap in Hin as ([k' v] & -> & Hin). simpl.
  exists v. split; [exact Hin | by apply Hval].
Qed.

(** C4. On the empty subset the top product is "N/A". On a subset with a
    record it is the name of a product of the subset whose summed sales are
    greater than or equal to the summed sales of every product of the
    subset. *)
Theorem top_product_greatest (fdf : DataFrame) :
  (fdf = [] -> top_product fdf = Ok "N/A") /\
  (fdf <> [] ->
   exists p, top_product fdf = Ok p /\
     (exists r, r ∈ fdf /\ product_name r = p) /\
     forall r', r' ∈ fdf ->
       (product_sales (product_name r') fdf <= product_sales p fdf)%Q).
Proof.
  split; [by intros -> |]. intros Hne.
  set (key := fun r : Row => Some (product_name r)).
  assert (Hg : groupby_sum String.leb key fdf <> []).
  { destruct fdf as [| r fdf]; [done |].
    destruct (groupby_sum_entry key String.leb (r :: fdf) r (product_name r))
      as (v & Hin & _); [apply list_elem_of_here | reflexivity |].
    intros Hnil. rewrite Hnil in Hin. inversion Hin. }
  destruct (idxmax_spec _ Hg) as (p & v & Hidx & Hin & Hmax).
  destruct (groupby_sum_spec key String.leb fdf) as (_ & Hkeys & Hval).
  exists p. split; [| split].
  - unfold top_product. destruct fdf; [done | exact Hidx].
  - assert (Hp : p ∈ (groupby_sum String.leb key fdf).*1)
      by (apply list_elem_of_fmap; by exists (p, v)).
    apply Hkeys in Hp as (r & Hr & [= Hk]). by exists r.
  - intros r' Hr'.
    destruct (groupby_sum_entry key String.leb fdf r' (product_name r') Hr' eq_refl)
      as (v' & Hin' & Hv').
    rewrite <- !product_group_total. fold key.
    rewrite <- Hv', <- (Hval p v Hin). by apply (Hmax (product_name r')).
Qed.

Lemma top_product_greatest_witness :
  [row_eu; row_us] <> [] /\
  exists p, top_product [row_eu; row_us] = Ok p /\
    (exists r, r ∈ [row_eu; row_us] /\ product_name r = p) /\
    forall r', r' ∈ [row_eu; row_us] ->
      (product_sales (product_name r') [row_eu; row_us]
       <= product_sales p [row_eu; row_us])%Q.
Proof.
  split; [discriminate |].
  apply (top_product_greatest [row_eu; row_us]). discriminate.
Defined.

Lemma total_sales_nil : total_sales [] = 0%Q.
Proof. reflexivity. Qed.

Lemma region_share_pos fdf :
  (0 < total_sales fdf)%Q ->
  region_share fdf
  = List.map (fun g => (g.1, round2 (g.2 / total_sales fdf * 100)))
             (groupby_sum String.leb region fdf).
Proof.
  intros Hpos. unfold region_share.
  destruct (Qle_bool (total_sales fdf) 0) eqn:Hle; [| reflexivity].
  apply Qle_bool_iff in Hle. lra.
Qed.

Lemma region_share_nonpos fdf : (total_sales fdf <= 0)%Q -> region_share fdf = [].
Proof.
  intros Hle. unfold region_share. apply Qle_bool_iff in Hle. by rewrite Hle.
Qed.

(** The claim C3 as it is written fails twice. On a subset whose total is
    negative: one refund of 5 passes the filters, the total is -5, neither
    zero nor the total of an empty subset, and the best region is "N/A". And
    on a subset where two shares round to the same two decimals: with sales
    of 49999 in North and 50001 in South both shares round to 50.00, the
    best region is North, and the share of North, 49.999, is less than the
    share of South, 50.001. *)
Lemma best_region_claim_fails :
  (filtered_df [row_refund] select_all = Ok [row_refund] /\
   ~ (best_region [row_refund] = Ok "N/A"
      <-> ((total_sales [row_refund] == 0)%Q \/ [row_refund] = []))) /\
  (filtered_df [row_north; row_south] select_north_south = Ok [row_north; row_south] /\
   ~ (total_sales [row_north; row_south] == 0)%Q /\
   best_region [row_north; row_south] = Ok "North" /\
   ~ (exact_share "South" [row_north; row_south]
      <= exact_share "North" [row_north; row_south])%Q).
Proof.
  split.
  - split; [reflexivity |].
    intros [Hna _]. destruct (Hna eq_refl) as [Hz | Hnil]; [| discriminate].
    vm_compute in Hz. discriminate.
  - split; [reflexivity |]. split; [| split; [reflexivity |]].
    + intros Hz. vm_compute in Hz. discriminate.
    + intros Hle. vm_compute in Hle. by apply Hle.
Qed.

(** The best region has the greatest share to two decimals. *)
Lemma best_region_greatest_rounded (df : DataFrame) (sel : Selection) (fdf : DataFrame) :
  filtered_df df sel = Ok fdf ->
  ((total_sales fdf <= 0)%Q -> best_region fdf = Ok "N/A") /\
  ((0 < total_sales fdf)%Q ->
   exists g, best_region fdf = Ok g /\
     (exists r, r ∈ fdf /\ region r = Some g) /\
     forall g', (exists r, r ∈ fdf /\ region r = Some g') ->
       (share_of g' fdf <= share_of g fdf)%Q).
Proof.
  intros Hf. split.
  - intros Hle. unfold best_region. by rewrite region_share_nonpos.
  - intros Hpos.
    pose proof (region_share_pos fdf Hpos) as Hshare.
    set (f := fun g : string * Q => (g.1, round2 (g.2 / total_sales fdf * 100))) in *.
    destruct (groupby_sum_spec region String.leb fdf) as (_ & Hkeys & Hval).
    assert (Hentry : forall g', (exists r, r ∈ fdf /\ region r = Some g') ->
              (g', share_of g' fdf) ∈ region_share fdf).
    { intros g' (r & Hr & Hg).
      destruct (groupby_sum_entry region String.leb fdf r g' Hr Hg) as (v & Hin & Hv).
      rewrite Hshare. apply list_elem_of_fmap. exists (g', v). split; [| exact Hin].
      unfold f, share_of. simpl. f_equal. apply round2_comp.
      change (region_sales g' fdf) with (group_total region g' fdf). by rewrite Hv. }
    assert (Hne : region_share fdf <> []).
    { destruct fdf as [| r fdf]; [rewrite total_sales_nil in Hpos; lra |].
      destruct (filtered_not_null _ _ _ Hf r) as ([g0 Hg0] & _);
        [apply list_elem_of_here |].
      intros Hnil. specialize (Hentry g0). rewrite Hnil in Hentry.
      assert (Hin : (g0, share_of g0 (r :: fdf)) ∈ @nil (string * Q)).
      { apply Hentry. exists r. split; [apply list_elem_of_here | exact Hg0]. }
      inversion Hin. }
    destruct (idxmax_spec _ Hne) as (g & sh & Hidx & Hin & Hmax).
    exists g. split; [| split].
    + unfold best_region. destruct (region_share fdf); [done | exact Hidx].
    + rewrite Hshare in Hin. apply list_elem_of_fmap in Hin as ([g1 v] & [= -> ->] & Hin).
      simpl. apply Hkeys. apply list_elem_of_fmap. by exists (g1, v).
    + intros g' Hg'. apply Hentry in Hg'. apply Hmax in Hg'.
      assert (Hsh : sh = share_of g fdf).
      { rewrite Hshare in Hin.
        apply list_elem_of_fmap in Hin as ([g1 v] & [= -> ->] & Hin). simpl.
        unfold share_of. apply round2_comp.
        change (region_sales g1 fdf) with (group_total region g1 fdf).
        by rewrite (Hval g1 v Hin). }
      by rewrite <- Hsh.
Qed.


(** Rounding keeps the order. *)
Lemma rint_bounds (x : Q) : (Qfloor x <= rint x <= Qfloor x + 1)%Z.
Proof.
  unfold rint. destruct (x - inject_Z (Qfloor x) ?= 1 # 2)%Q; [| lia | lia].
  destruct (Z.even (Qfloor x)); lia.
Qed.

Lemma rint_mono (x y : Q) : (x <= y)%Q -> (rint x <= rint y)%Z.
Proof.
  intros H. pose proof (Qfloor_resp_le _ _ H) as Hf.
  destruct (Z_lt_le_dec (Qfloor x) (Qfloor y)) as [Hlt | Hge].
  - pose proof (rint_bounds x). pose proof (rint_bounds y). lia.
  - assert (Heq : Qfloor x = Qfloor y) by lia.
    unfold rint. rewrite Heq.
    destruct (Qcompare_spec (x - inject_Z (Qfloor y)) (1 # 2)) as [Hx | Hx | Hx];
      destruct (Qcompare_spec (y - inject_Z (Qfloor y)) (1 # 2)) as [Hy | Hy | Hy];
      destruct (Z.even (Qfloor y)); try lia; exfalso; lra.
Qed.

Lemma round2_mono (x y : Q) : (x <= y)%Q -> (round2 x <= round2 y)%Q.
Proof.
  intros H. unfold round2.
  assert (H100 : (x * 100 <= y * 100)%Q) by lra.
  apply rint_mono in H100. rewrite Zle_Qle in H100.
  unfold Qdiv. change (/ 100)%Q with (1 # 100)%Q. lra.
Qed.

(** C3, amended. On a filtered subset whose total sales are not positive
    (zero, negative, or the subset is empty) the best region is "N/A". On a
    filtered subset whose total sales are positive it is a region of the
    subset, and its share of the total is greater than the share of every
    region of the subset whose share does not round to the same two decimals
    as its own. *)
Theorem best_region_greatest_share (df : DataFrame) (sel : Selection) (fdf : DataFrame) :
  filtered_df df sel = Ok fdf ->
  ((total_sales fdf <= 0)%Q -> best_region fdf = Ok "N/A") /\
  ((0 < total_sales fdf)%Q ->
   exists g, best_region fdf = Ok g /\
     (exists r, r ∈ fdf /\ region r = Some g) /\
     forall g', (exists r, r ∈ fdf /\ region r = Some g') ->
       ~ (round2 (exact_share g' fdf) == round2 (exact_share g fdf))%Q ->
       (exact_share g' fdf < exact_share g fdf)%Q).
Proof.
  intros Hf. destruct (best_region_greatest_rounded df sel fdf Hf) as [Hna Hmax].
  split; [exact Hna |]. intros Hpos.
  destruct (Hmax Hpos) as (g & Hbest & Hg & Hle). exists g.
  split; [exact Hbest |]. split; [exact Hg |].
  intros g' Hg' Hne. specialize (Hle g' Hg'). unfold share_of in Hle.
  fold (exact_share g' fdf) in Hle. fold (exact_share g fdf) in Hle.
  apply Qnot_le_lt. intros Hc. apply round2_mono in Hc.
  apply Hne. by apply Qle_antisym.
Qed.

Lemma best_region_greatest_share_witness :
  filtered_df [row_eu; row_us] select_all = Ok [row_eu; row_us] /\
  (0 < total_sales [row_eu; row_us])%Q /\
  exists g, best_region [row_eu; row_us] = Ok g /\
    (exists r, r ∈ [row_eu; row_us] /\ region r = Some g) /\
    forall g', (exists r, r ∈ [row_eu; row_us] /\ region r = Some g') ->
      ~ (round2 (exact_share g' [row_eu; row_us])
         == round2 (exact_share g [row_eu; row_us]))%Q ->
      (exact_share g' [row_eu; row_us] < exact_share g [row_eu; row_us])%Q.
Proof.
  split; [reflexivity |]. split; [reflexivity |].
  apply (best_region_greatest_share [row_eu; row_us] select_all [row_eu; row_us]);
    reflexivity.
Defined.

(** ** Shares recombined *)

Lemma series_sum_cons (x : Q) (l : list Q) : series_sum (x :: l) = (x + series_sum l)%Q.
Proof. reflexivity. Qed.

Lemma recombine_bound (T : Q) (groups : list (string * Q)) :
  (0 < T)%Q ->
  let shares := List.map (fun g => (g.1, round2 (g.2 / T * 100))) groups in
  let bound := (inject_Z (Z.of_nat (length groups)) * (1 # 200) * T / 100)%Q in
  (- bound <= series_sum (List.map (fun g => g.2 * T / 100) shares)
              - series_sum groups.*2 <= bound)%Q.
Proof.
  intros Hpos. cbn zeta.
  induction groups as [| [k v] groups IH].
  - cbn [List.map fmap list_fmap series_sum fold_right length].
    change (inject_Z (Z.of_nat 0)) with 0%Q.
    unfold Qdiv. change (/ 100)%Q with (1 # 100)%Q. split; lra.
  - change (((k, v) :: groups).*2) with (v :: groups.*2).
    cbn [List.map fst snd length].
    rewrite !series_sum_cons.
    rewrite Nat2Z.inj_succ, <- Z.add_1_r, inject_Z_plus.
    change (inject_Z 1) with 1%Q.
    pose proof (round2_near (v / T * 100)) as Hr.
    assert (He : (round2 (v / T * 100) * T / 100 - v
                  == (round2 (v / T * 100) - v / T * 100) * T / 100)%Q).
    { field. lra. }
    set (e := (round2 (v / T * 100) - v / T * 100)%Q) in *.
    assert (Hb : (- ((1 # 200) * T / 100) <= e * T / 100 <= (1 # 200) * T / 100)%Q).
    { unfold Qdiv. change (/ 100)%Q with (1 # 100)%Q.
      destruct Hr as [Hlo Hhi].
      apply (Qmult_le_compat_r _ _ T) in Hlo; [| lra].
      apply (Qmult_le_compat_r _ _ T) in Hhi; [| lra].
      split; lra. }
    set (n := inject_Z (Z.of_nat (length groups))) in *.
    set (S1 := series_sum (List.map _ _)) in *.
    set (S2 := series_sum groups.*2) in *.
    set (x := (round2 (v / T * 100) * T / 100)%Q) in *.
    set (y := (e * T / 100)%Q) in *.
    assert (Hn : (n * (1 # 200) * T / 100 + (1 # 200) * T / 100
                  == (n + 1) * (1 # 200) * T / 100)%Q) by (unfold Qdiv; ring).
    set (b := (n * (1 # 200) * T / 100)%Q) in *.
    set (c := ((1 # 200) * T / 100)%Q) in *.
    rewrite <- Hn. split; lra.
Qed.

Lemma keys_of_shares (h : Q -> Q) (l : list (string * Q)) :
  (List.map (fun g => (g.1, h g.2)) l).*1 = l.*1.
Proof. induction l as [| g l IH]; csimpl; [reflexivity | by rewrite IH]. Qed.

(** C7. On a filtered subset with positive total sales the share series has
    one entry for each region present in the subset, and recombining the
    shares (the sum over these regions of share * total / 100) gives back
    the total up to the rounding of the shares: each share is within half a
    hundredth of the exact percentage, so the recombined sum is within
    (number of regions) * 0.005 * total / 100 of the total. *)
Theorem region_shares_recombine (df : DataFrame) (sel : Selection) (fdf : DataFrame) :
  filtered_df df sel = Ok fdf ->
  (0 < total_sales fdf)%Q ->
  (NoDup (region_share fdf).*1 /\
   forall g, g ∈ (region_share fdf).*1 <-> exists r, r ∈ fdf /\ region r = Some g) /\
  (Qabs (series_sum (List.map (fun g => g.2 * total_sales fdf / 100) (region_share fdf))
         - total_sales fdf)
   <= inject_Z (Z.of_nat (length (region_share fdf))) * (1 # 200) * total_sales fdf / 100)%Q.
Proof.
  intros Hf Hpos. rewrite (region_share_pos fdf Hpos). split.
  - rewrite (keys_of_shares (fun v => round2 (v / total_sales fdf * 100))).
    destruct (groupby_sum_spec region String.leb fdf) as (Hnd & Hkeys & _).
    by split.
  - pose proof (recombine_bound (total_sales fdf) (groupby_sum String.leb region fdf) Hpos)
      as Hb. cbn zeta in Hb.
    assert (Ht : (series_sum (groupby_sum String.leb region fdf).*2 == total_sales fdf)%Q).
    { apply groupby_sum_total. intros r Hr.
      by destruct (filtered_not_null _ _ _ Hf r Hr) as (? & _). }
    rewrite Ht in Hb. rewrite length_map. apply Qabs_Qle_condition. exact Hb.
Qed.

Lemma region_shares_recombine_witness :
  filtered_df [row_eu; row_us] select_all = Ok [row_eu; row_us] /\
  (0 < total_sales [row_eu; row_us])%Q /\
  (Qabs (series_sum (List.map (fun g => g.2 * total_sales [row_eu; row_us] / 100)
                              (region_share [row_eu; row_us]))
         - total_sales [row_eu; row_us])
   <= inject_Z (Z.of_nat (length (region_share [row_eu; row_us])))
      * (1 # 200) * total_sales [row_eu; row_us] / 100)%Q.
Proof.
  split; [reflexivity |]. split; [reflexivity |].
  apply (region_shares_recombine [row_eu; row_us] select_all [row_eu; row_us]);
    reflexivity.
Defined.

(** ** The empty subset *)

Lemma keep_no_region cs d1 d2 r : keep [] cs d1 d2 r = false.
Proof. unfold keep. destruct (region r); reflexivity. Qed.

Lemma keep_no_category rs d1 d2 r : keep rs [] d1 d2 r = false.
Proof.
  unfold keep. destruct (category r); simpl; by rewrite ?andb_false_r.
Qed.

Lemma filter_none {A} (f : A -> bool) (l : list A) :
  (forall a, f a = false) -> List.filter f l = [].
Proof.
  intros Hf. induction l as [| a l IH]; simpl; [reflexivity |]. by rewrite Hf.
Qed.

(** C5. When the selection leaves no record (as it does when no region or no
    category is selected), total sales are 0, the average order value is NaN
    and is shown as "$nan", the top product and the best region are "N/A",
    and the page shows the five metrics, the empty-state message and the
    export controls: no chart. *)
Theorem empty_subset_page (df : DataFrame) (sel : Selection) (fdf : DataFrame) :
  filtered_df df sel = Ok fdf ->
  fdf = [] \/ regions sel = [] \/ categories sel = [] ->
  fdf = [] /\
  total_sales fdf = 0%Q /\
  avg_order_value fdf = None /\
  top_product fdf = Ok "N/A" /\
  best_region fdf = Ok "N/A" /\
  page df sel
  = Ok ([ st_metric "Total Sales" "$0.00";
          st_metric "Avg Order Value" "$nan";
          st_metric "Customers" "0";
          st_metric "Top Product" "N/A";
          st_metric "Best Region" "N/A";
          st_warning "No data matches the selected filters." ] ++ exports [])%list /\
  forall els, page df sel = Ok els -> forallb (fun e => negb (is_chart e)) els = true.
Proof.
  intros Hf Hsel.
  assert (Hnil : fdf = []).
  { destruct Hsel as [Hnil | Hsel]; [exact Hnil |].
    destruct (filtered_df_inv _ _ _ Hf) as (d1 & d2 & _ & _ & ->).
    destruct Hsel as [-> | ->]; apply filter_none; intros r;
      [apply keep_no_region | apply keep_no_category]. }
  subst fdf. repeat (split; [reflexivity |]).
  assert (Hpage : page df sel
    = Ok ([ st_metric "Total Sales" "$0.00";
            st_metric "Avg Order Value" "$nan";
            st_metric "Customers" "0";
            st_metric "Top Product" "N/A";
            st_metric "Best Region" "N/A";
            st_warning "No data matches the selected filters." ] ++ exports [])%list).
  { unfold page. rewrite Hf. reflexivity. }
  split; [exact Hpage |].
  intros els Hels. rewrite Hpage in Hels. injection Hels as <-. reflexivity.
Qed.

Lemma empty_subset_page_witness :
  filtered_df [row_eu; row_us] (mkSelection [] ["A"; "B"] (date_range select_all)) = Ok [] /\
  regions (mkSelection [] ["A"; "B"] (date_range select_all)) = [] /\
  forall els,
    page [row_eu; row_us] (mkSelection [] ["A"; "B"] (date_range select_all)) = Ok els ->
    forallb (fun e => negb (is_chart e)) els = true.
Proof.
  split; [reflexivity |]. split; [reflexivity |].
  apply (empty_subset_page [row_eu; row_us]
           (mkSelection [] ["A"; "B"] (date_range select_all)) []);
    [reflexivity | right; left; reflexivity].
Defined.

(** ** The scenario of the description *)

(** Two rows, EU with 100 and US with 50, everything selected: the total is
    150, the average 75, the top product the one that sold 100, the best
    region EU. *)
Example scenario_two_rows :
  exists rest,
    page [row_eu; row_us] select_all
    = Ok ([ st_metric "Total Sales" "$150.00";
            st_metric "Avg Order Value" "$75.00";
            st_metric "Customers" "2";
            st_metric "Top Product" "widget";
            st_metric "Best Region" "EU" ] ++ rest)%list /\
    region_share [row_eu; row_us] = [("EU", 66.67%Q); ("US", 33.33%Q)].
Proof. eexists. split; vm_compute; reflexivity. Qed.

End AppSpec.

(* ===================================================================== *)
(** * Further properties of the ETL job *)
(* ===================================================================== *)

Module EtlMore.
Import Py Etl PySpec EtlSpec.

(** ** extract *)

(** X1. When the file reads, [extract] makes a new object for its content:
    the reference it returns was unused, the object holds what was read,
    every object that existed is unchanged, no database is touched, and the
    log gains the one line with the row count. *)
Theorem extract_allocates_fresh (w : World) (path : string) (raw : DataFrame) :
  read_csv w path = Ok raw ->
  exists l w',
    extract path w = (Ok l, w') /\
    heap w !! l = None /\
    heap w' !! l = Some raw /\
    (forall l', l' <> l -> heap w' !! l' = heap w !! l') /\
    dbs w' = dbs w /\
    log w' = (log w ++ [(INFO, "Extracted " +:+ pretty (length (rows raw))
                               +:+ " rows from " +:+ path)])%list.
Proof.
  intros H. eexists _, _. split; [apply (extract_ok _ _ _ H) |]. simpl.
  split; [apply not_elem_of_dom, is_fresh |].
  split; [apply lookup_insert_eq |].
  split; [intros l' Hne; by rewrite lookup_insert_ne |].
  split; reflexivity.
Qed.

Lemma extract_allocates_fresh_witness :
  read_csv world_file "data/raw_sales.csv" = Ok raw_sample /\
  exists l w',
    extract "data/raw_sales.csv" world_file = (Ok l, w') /\
    heap world_file !! l = None /\
    heap w' !! l = Some raw_sample /\
    (forall l', l' <> l -> heap w' !! l' = heap world_file !! l') /\
    dbs w' = dbs world_file /\
    log w' = (log world_file
              ++ [(INFO, "Extracted " +:+ pretty (length (rows raw_sample))
                         +:+ " rows from " +:+ "data/raw_sales.csv")])%list.
Proof.
  split; [reflexivity |].
  apply (extract_allocates_fresh world_file "data/raw_sales.csv" raw_sample).
  reflexivity.
Defined.

(** X2. When the source file does not read, the job stops at [extract] with
    the exception of the reader: no object is made, no database is touched,
    and the log gains exactly the line "Extraction failed: ..." (neither
    [transform] nor [load] has run). *)
Theorem main_aborts_on_unreadable_source (config : Config) (w : World) (e : exn) :
  read_csv w (RAW_DATA_PATH config) = Raise e ->
  exists w',
    main config w = (Raise e, w') /\
    heap w' = heap w /\
    dbs w' = dbs w /\
    log w' = (log w ++ [(ERROR, "Extraction failed: " +:+ exn_msg e)])%list.
Proof.
  intros H. unfold main. run. rewrite (extract_fail _ _ _ H).
  eexists. split; [reflexivity |]. repeat split.
Qed.

Lemma main_aborts_on_unreadable_source_witness :
  read_csv world_sample (RAW_DATA_PATH config_sample)
  = Raise (Exception "No such file or directory") /\
  exists w',
    main config_sample world_sample
    = (Raise (Exception "No such file or directory"), w') /\
    heap w' = heap world_sample /\
    dbs w' = dbs world_sample /\
    log w' = (log world_sample
              ++ [(ERROR, "Extraction failed: "
                          +:+ exn_msg (Exception "No such file or directory"))])%list.
Proof.
  split; [reflexivity |].
  apply (main_aborts_on_unreadable_source config_sample world_sample). reflexivity.
Defined.

(** ** Column names *)

Lemma map_string_compose f g s : map_string f (map_string g s) = map_string (fun a => f (g a)) s.
Proof. induction s as [| a s IH]; simpl; [reflexivity | by rewrite IH]. Qed.

Lemma map_string_ext f g s : (forall a, f a = g a) -> map_string f s = map_string g s.
Proof. intros H. induction s as [| a s IH]; simpl; [reflexivity | by rewrite H, IH]. Qed.

Lemma normalize_clean_char c : normalize c = map_string clean_char (strip c).
Proof. unfold normalize, replace, lower. rewrite map_string_compose. reflexivity. Qed.

Lemma clean_char_facts a :
  clean_char (clean_char a) = clean_char a /\
  clean_char a <> " "%char /\
  (Ascii.leb "A" (clean_char a) && Ascii.leb (clean_char a) "Z")%bool = false /\
  (is_space a = false -> is_space (clean_char a) = false).
Proof.
  destruct a as [[] [] [] [] [] [] [] []]; vm_compute; repeat split; congruence.
Qed.

Lemma lstrip_fixed s :
  (forall a t, s = String a t -> is_space a = false) -> lstrip s = s.
Proof.
  intros H. destruct s as [| a s]; [reflexivity |]. simpl.
  by rewrite (H a s eq_refl).
Qed.

Lemma rstrip_idem s : rstrip (rstrip s) = rstrip s.
Proof.
  induction s as [| a s IH]; [reflexivity |].
  destruct (rstrip_cons a s) as [Hc | (Hc & _)]; rewrite Hc; [| reflexivity].
  destruct (rstrip_cons a (rstrip s)) as [Hd | (Hd & Hr & Ha)]; rewrite Hd.
  - by rewrite IH.
  - rewrite IH in Hr. simpl in Hc. rewrite Hr, Ha in Hc. discriminate.
Qed.

Lemma rstrip_fixed_inv a s :
  rstrip (String a s) = String a s ->
  rstrip s = s /\ (s = "" -> is_space a = false).
Proof.
  intros H. destruct (rstrip_cons a s) as [Hc | (Hc & _)]; rewrite Hc in H;
    [| discriminate].
  injection H as H. split; [exact H |]. intros ->.
  simpl in Hc. destruct (is_space a); [discriminate | reflexivity].
Qed.

Lemma rstrip_fixed_map (g : ascii -> ascii) s :
  (forall a, is_space a = false -> is_space (g a) = false) ->
  rstrip s = s -> rstrip (map_string g s) = map_string g s.
Proof.
  intros Hg. induction s as [| a s IH]; intros H; [reflexivity |].
  apply rstrip_fixed_inv in H as [Hs Ha]. specialize (IH Hs).
  simpl. rewrite IH. destruct s as [| b s]; simpl; [| reflexivity].
  by rewrite (Hg a (Ha eq_refl)).
Qed.

Lemma strip_head c a t : strip c = String a t -> is_space a = false.
Proof.
  destruct (strip_split c) as (_ & _ & _ & _ & _ & Hhd & _). apply Hhd.
Qed.

Lemma strip_clean c : strip (map_string clean_char (strip c)) = map_string clean_char (strip c).
Proof.
  unfold strip at 1. rewrite lstrip_fixed.
  - apply rstrip_fixed_map; [intros a; apply clean_char_facts |].
    unfold strip. apply rstrip_idem.
  - intros a t Heq. destruct (strip c) as [| b u] eqn:Hs; [discriminate |].
    simpl in Heq. injection Heq as <- _.
    apply clean_char_facts. by apply (strip_head c b u).
Qed.

Lemma normalize_idem c : normalize (normalize c) = normalize c.
Proof.
  rewrite !normalize_clean_char, strip_clean, map_string_compose.
  apply map_string_ext. intros a. apply clean_char_facts.
Qed.

Lemma filter_idem {A} (f : A -> bool) (l : list A) :
  List.filter f (List.filter f l) = List.filter f l.
Proof.
  induction l as [| a l IH]; simpl; [reflexivity |].
  destruct (f a) eqn:Ha; simpl; rewrite ?Ha, IH; reflexivity.
Qed.

Lemma cleaned_idem df : cleaned (cleaned df) = cleaned df.
Proof.
  unfold cleaned. simpl. rewrite filter_idem, List.map_map. f_equal.
  apply List.map_ext. intros c. apply normalize_idem.
Qed.

(** X3. A cleaned column name contains no space and no capital letter A-Z,
    neither starts nor ends with whitespace, and cleaning it again changes
    nothing. *)
Theorem normalize_shape (c : string) :
  (forall a, In a (list_ascii_of_string (normalize c)) ->
     a <> " "%char /\ (Ascii.leb "A" a && Ascii.leb a "Z")%bool = false) /\
  (forall a t, normalize c = String a t -> is_space a = false) /\
  (forall t a, normalize c = t ++ String a "" -> is_space a = false) /\
  normalize (normalize c) = normalize c.
Proof.
  split; [| split; [| split]].
  - intros a. rewrite normalize_clean_char, list_ascii_of_map_string.
    intros (b & <- & _)%List.in_map_iff. split; apply clean_char_facts.
  - intros a t Heq. rewrite normalize_clean_char, <- strip_clean in Heq.
    by apply strip_head in Heq.
  - intros t a Heq. rewrite normalize_clean_char, <- strip_clean in Heq.
    destruct (strip_split (map_string clean_char (strip c)))
      as (_ & _ & _ & _ & _ & _ & Hlast). by apply (Hlast t a).
  - apply normalize_idem.
Qed.

(** ** transform *)

(** X4. [transform] is idempotent on the object it is given: a second call
    succeeds, returns the same reference and leaves every object as the
    first call left it. *)
Theorem transform_twice (w : World) (l : ref) (df : DataFrame) :
  heap w !! l = Some df ->
  exists w1 w2,
    transform l w = (Ok l, w1) /\
    transform l w1 = (Ok l, w2) /\
    heap w2 = heap w1 /\ dbs w2 = dbs w1.
Proof.
  intros H. eexists _, _. split; [apply (transform_run _ _ _ H) |].
  split; [apply transform_run; simpl; apply lookup_insert_eq |].
  simpl. rewrite cleaned_idem, insert_insert_eq. split; reflexivity.
Qed.

Lemma transform_twice_witness :
  heap world_sample !! 0%nat = Some raw_sample /\
  exists w1 w2,
    transform 0%nat world_sample = (Ok 0%nat, w1) /\
    transform 0%nat w1 = (Ok 0%nat, w2) /\
    heap w2 = heap w1 /\ dbs w2 = dbs w1.
Proof.
  split; [reflexivity |].
  apply (transform_twice world_sample 0%nat raw_sample). reflexivity.
Defined.

(** X5. [transform] does not notice two columns that come to the same name:
    when cleaning makes two names of the frame equal, the call still
    succeeds and the object is left with a repeated column name. *)
Theorem transform_accepts_name_collisions (w : World) (l : ref) (df : DataFrame) :
  heap w !! l = Some df ->
  ~ NoDup (List.map normalize (columns df)) ->
  exists w' df',
    transform l w = (Ok l, w') /\
    heap w' !! l = Some df' /\
    length (columns df') = length (columns df) /\
    ~ NoDup (columns df').
Proof.
  intros H Hdup. eexists _, (cleaned df). split; [apply (transform_run _ _ _ H) |].
  simpl. split; [apply lookup_insert_eq |]. split; [apply length_map | exact Hdup].
Qed.

Lemma transform_accepts_name_collisions_witness :
  heap world_collision !! 0%nat = Some raw_collision /\
  ~ NoDup (List.map normalize (columns raw_collision)) /\
  exists w' df',
    transform 0%nat world_collision = (Ok 0%nat, w') /\
    heap w' !! 0%nat = Some df' /\
    length (columns df') = length (columns raw_collision) /\
    ~ NoDup (columns df').
Proof.
  assert (Hdup : ~ NoDup (List.map normalize (columns raw_collision))).
  { vm_compute. intros Hnd. apply NoDup_cons in Hnd as [Hnin _].
    apply Hnin. apply list_elem_of_here. }
  split; [reflexivity |]. split; [exact Hdup |].
  apply (transform_accepts_name_collisions world_collision 0%nat raw_collision);
    [reflexivity | exact Hdup].
Defined.

(** ** load and the whole job *)







End EtlMore.

(* ===================================================================== *)
(** * Further properties of the dashboard *)
(* ===================================================================== *)

Module AppMore.
Import Py App AppSpec.

(** ** The order of timestamps *)

Lemma ts_le_refl a : ts_le a a.
Proof. unfold ts_le. destruct a; simpl; lia. Qed.

Lemma ts_le_trans a b c : ts_le a b -> ts_le b c -> ts_le a c.
Proof. unfold ts_le. destruct a, b, c; simpl; lia. Qed.

Lemma ts_le_total a b : ts_le a b \/ ts_le b a.
Proof. unfold ts_le. destruct a, b; simpl; lia. Qed.

Lemma ts_le_antisym a b : ts_le a b -> ts_le b a -> a = b.
Proof.
  unfold ts_le. destruct a, b; simpl. intros H1 H2.
  f_equal; lia.
Qed.

Lemma ts_leb_false a b : ts_leb a b = false -> ts_le b a.
Proof.
  intros H. destruct (ts_le_total a b) as [Hab | Hba]; [| exact Hba].
  apply ts_leb_le in Hab. congruence.
Qed.

(** ** The options of the multiselects *)

Lemma elem_of_dropna {A} (s : list (option A)) (x : A) : x ∈ dropna s <-> Some x ∈ s.
Proof.
  unfold dropna. rewrite list_elem_of_omap. split.
  - intros (o & Ho & Hx). simpl in Hx. by subst o.
  - intros H. by exists (Some x).
Qed.

Lemma unique_from_spec {A} `{EqDecision A} (seen s : list A) :
  NoDup (unique_from seen s) /\
  forall x, x ∈ unique_from seen s <-> x ∈ s /\ x ∉ seen.
Proof.
  revert seen. induction s as [| a s IH]; intros seen; simpl.
  - split; [constructor |]. intros x. split; [intros H; inversion H | intros [H _]; inversion H].
  - destruct (decide (a ∈ seen)) as [Hin | Hnin].
    + destruct (IH seen) as [Hnd Hmem]. split; [exact Hnd |].
      intros x. rewrite Hmem, elem_of_cons. split; [tauto |].
      intros [[-> | Hx] Hns]; [contradiction | tauto].
    + destruct (IH (a :: seen)) as [Hnd Hmem]. split.
      * constructor; [| exact Hnd]. rewrite Hmem. intros [_ Hn].
        apply Hn, list_elem_of_here.
      * intros x. rewrite !elem_of_cons, Hmem, not_elem_of_cons.
        split.
        -- intros [-> | (Hx & Hne & Hns)]; tauto.
        -- intros [[-> | Hx] Hns]; [tauto |].
           destruct (decide (x = a)) as [-> | Hne]; tauto.
Qed.

Lemma unique_spec {A} `{EqDecision A} (s : list A) :
  NoDup (unique s) /\ forall x, x ∈ unique s <-> x ∈ s.
Proof.
  destruct (unique_from_spec [] s) as [Hnd Hmem]. split; [exact Hnd |].
  intros x. unfold unique. rewrite Hmem. split; [tauto |].
  intros H. split; [exact H | apply not_elem_of_nil].
Qed.

Lemma elem_of_map_field {A} (f : Row -> A) (df : DataFrame) (x : A) :
  x ∈ List.map f df <-> exists r, r ∈ df /\ f r = x.
Proof.
  rewrite list_elem_of_In, List.in_map_iff. split;
    intros (r & H1 & H2); exists r; [split | split]; try done;
    by apply list_elem_of_In.
Qed.

(** X9. The options of the region control are the distinct regions of the
    table, each once, missing ones left out; likewise for the categories. *)
Theorem multiselect_options (df : DataFrame) :
  NoDup (region_options df) /\
  (forall g, g ∈ region_options df <-> exists r, r ∈ df /\ region r = Some g) /\
  NoDup (category_options df) /\
  (forall c, c ∈ category_options df <-> exists r, r ∈ df /\ category r = Some c).
Proof.
  unfold region_options, category_options.
  destruct (unique_spec (dropna (List.map region df))) as [Hnd1 Hm1].
  destruct (unique_spec (dropna (List.map category df))) as [Hnd2 Hm2].
  split; [exact Hnd1 |]. split; [| split; [exact Hnd2 |]].
  - intros g. by rewrite Hm1, elem_of_dropna, elem_of_map_field.
  - intros c. by rewrite Hm2, elem_of_dropna, elem_of_map_field.
Qed.

(** ** The bounds of the date control *)

Lemma fold_min_spec (l : list Timestamp) (t : Timestamp) :
  (fold_left ts_min2 l t = t \/ fold_left ts_min2 l t ∈ l) /\
  ts_le (fold_left ts_min2 l t) t /\
  forall x, x ∈ l -> ts_le (fold_left ts_min2 l t) x.
Proof.
  revert t. induction l as [| a l IH]; intros t; simpl.
  - split; [by left |]. split; [apply ts_le_refl |]. intros x Hx. inversion Hx.
  - destruct (IH (ts_min2 t a)) as (Hin & Hle & Hall).
    assert (Hm : ts_le (ts_min2 t a) t /\ ts_le (ts_min2 t a) a
                 /\ (ts_min2 t a = t \/ ts_min2 t a = a)).
    { unfold ts_min2. destruct (ts_leb t a) eqn:Hc.
      - apply ts_leb_le in Hc. split; [apply ts_le_refl |]. split; [exact Hc | by left].
      - apply ts_leb_false in Hc. split; [exact Hc |]. split; [apply ts_le_refl | by right]. }
    destruct Hm as (Hmt & Hma & Hmeq). split; [| split].
    + destruct Hin as [-> | Hin]; [| right; by apply list_elem_of_further].
      destruct Hmeq as [-> | ->]; [by left | right; apply list_elem_of_here].
    + by apply (ts_le_trans _ (ts_min2 t a)).
    + intros x [-> | Hx]%elem_of_cons; [by apply (ts_le_trans _ (ts_min2 t a)) |].
      by apply Hall.
Qed.

Lemma fold_max_spec (l : list Timestamp) (t : Timestamp) :
  (fold_left ts_max2 l t = t \/ fold_left ts_max2 l t ∈ l) /\
  ts_le t (fold_left ts_max2 l t) /\
  forall x, x ∈ l -> ts_le x (fold_left ts_max2 l t).
Proof.
  revert t. induction l as [| a l IH]; intros t; simpl.
  - split; [by left |]. split; [apply ts_le_refl |]. intros x Hx. inversion Hx.
  - destruct (IH (ts_max2 t a)) as (Hin & Hle & Hall).
    assert (Hm : ts_le t (ts_max2 t a) /\ ts_le a (ts_max2 t a)
                 /\ (ts_max2 t a = t \/ ts_max2 t a = a)).
    { unfold ts_max2. destruct (ts_leb t a) eqn:Hc.
      - apply ts_leb_le in Hc. split; [exact Hc |]. split; [apply ts_le_refl | by right].
      - apply ts_leb_false in Hc. split; [apply ts_le_refl |]. split; [exact Hc | by left]. }
    destruct Hm as (Hmt & Hma & Hmeq). split; [| split].
    + destruct Hin as [-> | Hin]; [| right; by apply list_elem_of_further].
      destruct Hmeq as [-> | ->]; [by left | right; apply list_elem_of_here].
    + by apply (ts_le_trans _ (ts_max2 t a)).
    + intros x [-> | Hx]%elem_of_cons; [by apply (ts_le_trans _ (ts_max2 t a)) |].
      by apply Hall.
Qed.

Lemma min_date_spec df lo :
  min_date df = Some lo ->
  (exists r, r ∈ df /\ order_date r = Some lo) /\
  forall r t, r ∈ df -> order_date r = Some t -> ts_le lo t.
Proof.
  unfold min_date, series_min. intros H.
  destruct (dropna (List.map order_date df)) as [| t0 ts] eqn:Hd; [discriminate |].
  injection H as <-. destruct (fold_min_spec ts t0) as (Hin & Hle & Hall).
  assert (Hmem : forall x, x ∈ t0 :: ts <-> exists r, r ∈ df /\ order_date r = Some x).
  { intros x. by rewrite <- Hd, elem_of_dropna, elem_of_map_field. }
  split.
  - apply Hmem. destruct Hin as [-> | Hin];
      [apply list_elem_of_here | by apply list_elem_of_further].
  - intros r t Hr Ht.
    assert (Hx : t ∈ t0 :: ts) by (apply Hmem; eauto).
    apply elem_of_cons in Hx as [-> | Hx]; [exact Hle | by apply Hall].
Qed.

Lemma max_date_spec df hi :
  max_date df = Some hi ->
  (exists r, r ∈ df /\ order_date r = Some hi) /\
  forall r t, r ∈ df -> order_date r = Some t -> ts_le t hi.
Proof.
  unfold max_date, series_max. intros H.
  destruct (dropna (List.map order_date df)) as [| t0 ts] eqn:Hd; [discriminate |].
  injection H as <-. destruct (fold_max_spec ts t0) as (Hin & Hle & Hall).
  assert (Hmem : forall x, x ∈ t0 :: ts <-> exists r, r ∈ df /\ order_date r = Some x).
  { intros x. by rewrite <- Hd, elem_of_dropna, elem_of_map_field. }
  split.
  - apply Hmem. destruct Hin as [-> | Hin];
      [apply list_elem_of_here | by apply list_elem_of_further].
  - intros r t Hr Ht.
    assert (Hx : t ∈ t0 :: ts) by (apply Hmem; eauto).
    apply elem_of_cons in Hx as [-> | Hx]; [exact Hle | by apply Hall].
Qed.

(** X10. The bounds offered by the date control are dates of the table, the
    earliest and the latest: every dated row lies between them; and a table
    without any date gives no bound (NaT). *)
Theorem date_bounds (df : DataFrame) :
  (forall lo hi, min_date df = Some lo -> max_date df = Some hi ->
     (exists r, r ∈ df /\ order_date r = Some lo) /\
     (exists r, r ∈ df /\ order_date r = Some hi) /\
     forall r t, r ∈ df -> order_date r = Some t -> ts_le lo t /\ ts_le t hi) /\
  ((forall r, r ∈ df -> order_date r = None) ->
     min_date df = None /\ max_date df = None).
Proof.
  split.
  - intros lo hi Hlo Hhi.
    destruct (min_date_spec df lo Hlo) as [Hl1 Hl2].
    destruct (max_date_spec df hi Hhi) as [Hh1 Hh2].
    split; [exact Hl1 |]. split; [exact Hh1 |]. intros r t Hr Ht. split; eauto.
  - intros Hnone. unfold min_date, max_date, series_min, series_max.
    assert (Hd : dropna (List.map order_date df) = []).
    { destruct (dropna (List.map order_date df)) as [| t ts] eqn:Hd; [reflexivity |].
      assert (Hin : t ∈ dropna (List.map order_date df))
        by (rewrite Hd; apply list_elem_of_here).
      apply elem_of_dropna, elem_of_map_field in Hin as (r & Hr & Ht).
      rewrite (Hnone r Hr) in Ht. discriminate. }
    by rewrite Hd.
Qed.

Lemma date_bounds_witness :
  min_date [row_eu; row_nat; row_us] = Some (mkTimestamp 2024 1 5) /\
  max_date [row_eu; row_nat; row_us] = Some (mkTimestamp 2024 2 10) /\
  forall r t, r ∈ [row_eu; row_nat; row_us] -> order_date r = Some t ->
    ts_le (mkTimestamp 2024 1 5) t /\ ts_le t (mkTimestamp 2024 2 10).
Proof.
  split; [reflexivity |]. split; [reflexivity |].
  apply (proj1 (date_bounds [row_eu; row_nat; row_us])
               (mkTimestamp 2024 1 5) (mkTimestamp 2024 2 10)); reflexivity.
Defined.

(** ** The filter *)

Lemma filtered_df_lookup df sel d1 d2 :
  date_range sel !! 0%nat = Some d1 -> date_range sel !! 1%nat = Some d2 ->
  filtered_df df sel = Ok (List.filter (keep (regions sel) (categories sel) d1 d2) df).
Proof.
  intros H0 H1. unfold filtered_df, mask, index. rewrite H0, H1. simpl.
  unfold isin, between, series_and.
  rewrite !List.map_map, !zip_with_map_same, <- loc_map. reflexivity.
Qed.

Lemma filter_sublist {A} (f : A -> bool) (l : list A) : sublist (List.filter f l) l.
Proof.
  induction l as [| a l IH]; simpl; [constructor |].
  destruct (f a); by constructor.
Qed.

Lemma filter_sublist_mono {A} (f g : A -> bool) (l : list A) :
  (forall a, f a = true -> g a = true) ->
  sublist (List.filter f l) (List.filter g l).
Proof.
  intros Hfg. induction l as [| a l IH]; simpl; [constructor |].
  destruct (f a) eqn:Hf.
  - rewrite (Hfg a Hf). by constructor.
  - destruct (g a); [by constructor | exact IH].
Qed.

Lemma filter_filter_same {A} (f : A -> bool) (l : list A) :
  List.filter f (List.filter f l) = List.filter f l.
Proof.
  induction l as [| a l IH]; simpl; [reflexivity |].
  destruct (f a) eqn:Ha; simpl; rewrite ?Ha, IH; reflexivity.
Qed.

Lemma keep_true_iff rs cs d1 d2 r :
  keep rs cs d1 d2 r = true <->
  (exists g, region r = Some g /\ g ∈ rs) /\
  (exists c, category r = Some c /\ c ∈ cs) /\
  (exists t, order_date r = Some t /\ ts_le d1 t /\ ts_le t d2).
Proof.
  unfold keep. rewrite !andb_true_iff.
  destruct (region r) as [g |], (category r) as [c |], (order_date r) as [t |];
    rewrite ?andb_true_iff, ?bool_decide_eq_true, ?ts_leb_le.
  1: { split.
       - intros [[Hg Hc] [H1 H2]]. eauto 10.
       - intros ((g' & [= <-] & Hg) & (c' & [= <-] & Hc) & (t' & [= <-] & H1 & H2)).
         tauto. }
  all: split; [intros [[? ?] ?]; discriminate |].
  all: intros ((? & Hg & _) & (? & Hc & _) & (? & Ht & _)); discriminate.
Qed.

(** X11. With nothing changed in the controls (every region and every
    category selected, the dates from the earliest to the latest), the
    filtered subset holds exactly the rows of the table that have a region,
    a category and a date. *)
Theorem defaults_keep_complete_rows (df : DataFrame) (lo hi : Timestamp) :
  min_date df = Some lo -> max_date df = Some hi ->
  exists fdf,
    filtered_df df (mkSelection (region_options df) (category_options df) [lo; hi])
    = Ok fdf /\
    sublist fdf df /\
    forall r, r ∈ fdf <->
      r ∈ df /\ is_Some (region r) /\ is_Some (category r) /\ is_Some (order_date r).
Proof.
  intros Hlo Hhi. eexists. split; [by apply filtered_df_lookup |]. simpl.
  split; [apply filter_sublist |].
  destruct (min_date_spec df lo Hlo) as [_ Hl].
  destruct (max_date_spec df hi Hhi) as [_ Hh].
  destruct (unique_spec (dropna (List.map region df))) as [_ Hm1].
  destruct (unique_spec (dropna (List.map category df))) as [_ Hm2].
  intros r. rewrite list_elem_of_In, List.filter_In, <- list_elem_of_In, keep_true_iff.
  split.
  - intros (Hr & (g & Hg & _) & (c & Hc & _) & (t & Ht & _)).
    rewrite Hg, Hc, Ht. eauto.
  - intros (Hr & [g Hg] & [c Hc] & [t Ht]). split; [exact Hr |].
    split; [| split].
    + exists g. split; [exact Hg |]. unfold region_options.
      apply Hm1, elem_of_dropna, elem_of_map_field. eauto.
    + exists c. split; [exact Hc |]. unfold category_options.
      apply Hm2, elem_of_dropna, elem_of_map_field. eauto.
    + exists t. split; [exact Ht |]. split; eauto.
Qed.

Lemma defaults_keep_complete_rows_witness :
  min_date [row_eu; row_nat; row_us] = Some (mkTimestamp 2024 1 5) /\
  max_date [row_eu; row_nat; row_us] = Some (mkTimestamp 2024 2 10) /\
  exists fdf,
    filtered_df [row_eu; row_nat; row_us]
      (mkSelection (region_options [row_eu; row_nat; row_us])
                   (category_options [row_eu; row_nat; row_us])
                   [mkTimestamp 2024 1 5; mkTimestamp 2024 2 10])
    = Ok fdf /\
    sublist fdf [row_eu; row_nat; row_us] /\
    forall r, r ∈ fdf <->
      r ∈ [row_eu; row_nat; row_us]
      /\ is_Some (region r) /\ is_Some (category r) /\ is_Some (order_date r).
Proof.
  split; [reflexivity |]. split; [reflexivity |].
  apply (defaults_keep_complete_rows [row_eu; row_nat; row_us]); reflexivity.
Defined.

(** X12. A filtered subset keeps the rows of the table in their order, and
    filtering it again with the same selection changes nothing. *)
Theorem filter_is_idempotent (df : DataFrame) (sel : Selection) (fdf : DataFrame) :
  filtered_df df sel = Ok fdf ->
  sublist fdf df /\ filtered_df fdf sel = Ok fdf.
Proof.
  intros H. destruct (filtered_df_inv _ _ _ H) as (d1 & d2 & H0 & H1 & ->).
  split; [apply filter_sublist |].
  rewrite (filtered_df_lookup _ _ _ _ H0 H1). by rewrite filter_filter_same.
Qed.

Lemma filter_is_idempotent_witness :
  filtered_df [row_eu; row_nat; row_us] select_all = Ok [row_eu; row_us] /\
  sublist [row_eu; row_us] [row_eu; row_nat; row_us] /\
  filtered_df [row_eu; row_us] select_all = Ok [row_eu; row_us].
Proof.
  split; [reflexivity |].
  apply (filter_is_idempotent [row_eu; row_nat; row_us] select_all). reflexivity.
Defined.

(** X13. Selecting more never shows less: when every region and category
    of one selection is in another and its interval lies inside the other's,
    its filtered subset is, in order, part of the other's. *)
Theorem filter_is_monotone (df : DataFrame) (rs rs' cs cs' : list string)
    (d1 d2 d1' d2' : Timestamp) :
  (forall g, g ∈ rs -> g ∈ rs') ->
  (forall c, c ∈ cs -> c ∈ cs') ->
  ts_le d1' d1 -> ts_le d2 d2' ->
  exists fdf fdf',
    filtered_df df (mkSelection rs cs [d1; d2]) = Ok fdf /\
    filtered_df df (mkSelection rs' cs' [d1'; d2']) = Ok fdf' /\
    sublist fdf fdf'.
Proof.
  intros Hrs Hcs Hd1 Hd2. eexists _, _.
  split; [by apply filtered_df_lookup |]. split; [by apply filtered_df_lookup |].
  simpl. apply filter_sublist_mono. intros r.
  rewrite !keep_true_iff.
  intros ((g & Hg & Hin) & (c & Hc & Hic) & (t & Ht & Hl & Hu)).
  split; [eauto |]. split; [eauto |]. exists t. split; [exact Ht |].
  split; [by apply (ts_le_trans _ d1) | by apply (ts_le_trans _ d2)].
Qed.

Lemma filter_is_monotone_witness :
  (forall g, g ∈ ["EU"] -> g ∈ ["EU"; "US"]) /\
  exists fdf fdf',
    filtered_df [row_eu; row_us]
      (mkSelection ["EU"] ["A"; "B"] [mkTimestamp 2024 1 1; mkTimestamp 2024 12 31]) = Ok fdf /\
    filtered_df [row_eu; row_us]
      (mkSelection ["EU"; "US"] ["A"; "B"] [mkTimestamp 2024 1 1; mkTimestamp 2024 12 31])
    = Ok fdf' /\
    sublist fdf fdf'.
Proof.
  assert (H : forall g : string, g ∈ ["EU"] -> g ∈ ["EU"; "US"]).
  { intros g ->%list_elem_of_singleton. apply list_elem_of_here. }
  split; [exact H |].
  apply (filter_is_monotone [row_eu; row_us] ["EU"] ["EU"; "US"] ["A"; "B"] ["A"; "B"]);
    [exact H | tauto | apply ts_le_refl | apply ts_le_refl].
Defined.

(** X14. An interval whose end lies before its start selects nothing. *)
Theorem inverted_interval_selects_nothing (df : DataFrame) (rs cs : list string)
    (d1 d2 : Timestamp) :
  ~ ts_le d1 d2 ->
  filtered_df df (mkSelection rs cs [d1; d2]) = Ok [].
Proof.
  intros Hinv. rewrite (filtered_df_lookup df _ d1 d2) by reflexivity. simpl. f_equal.
  apply filter_none. intros r.
  destruct (keep rs cs d1 d2 r) eqn:Hk; [| reflexivity].
  apply keep_true_iff in Hk as (_ & _ & t & _ & Hl & Hu).
  destruct Hinv. by apply (ts_le_trans _ t).
Qed.

Lemma inverted_interval_selects_nothing_witness :
  ~ ts_le (mkTimestamp 2024 12 31) (mkTimestamp 2024 1 1) /\
  filtered_df [row_eu; row_us]
    (mkSelection ["EU"; "US"] ["A"; "B"] [mkTimestamp 2024 12 31; mkTimestamp 2024 1 1])
  = Ok [].
Proof.
  assert (H : ~ ts_le (mkTimestamp 2024 12 31) (mkTimestamp 2024 1 1))
    by (unfold ts_le; simpl; lia).
  split; [exact H |].
  apply (inverted_interval_selects_nothing [row_eu; row_us]). exact H.
Defined.

(** X15. When the date control has given fewer than two dates, the script
    stops at the mask with an index error: there is no filtered subset and
    the page below the controls is not drawn. *)
Theorem short_date_range_raises (df : DataFrame) (sel : Selection) :
  (length (date_range sel) < 2)%nat ->
  filtered_df df sel = Raise (Exception "tuple index out of range") /\
  page df sel = Raise (Exception "tuple index out of range").
Proof.
  intros Hlen. unfold page, filtered_df, mask, index.
  destruct (date_range sel) as [| d1 [| d2 ds]]; simpl in *; [done | done | lia].
Qed.

Lemma short_date_range_raises_witness :
  (length (date_range (mkSelection ["EU"] ["A"] [mkTimestamp 2024 1 1])) < 2)%nat /\
  page [row_eu] (mkSelection ["EU"] ["A"] [mkTimestamp 2024 1 1])
  = Raise (Exception "tuple index out of range").
Proof.
  split; [simpl; lia |].
  apply (short_date_range_raises [row_eu] (mkSelection ["EU"] ["A"] [mkTimestamp 2024 1 1])).
  simpl. lia.
Defined.

(** ** The order of the groups *)

Section Sorting.
Context {K : Type} `{EqDecision K}.
Variable leb : K -> K -> bool.
Hypothesis leb_total : forall a b, leb a b = true \/ leb b a = true.
Hypothesis leb_trans : forall a b c, leb a b = true -> leb b c = true -> leb a c = true.

Lemma insert_by_sorted (p : K * Q) (l : list (K * Q)) :
  StronglySorted (key_le leb) l -> StronglySorted (key_le leb) (insert_by leb p l).
Proof.
  induction l as [| q l IH]; intros Hs; simpl.
  - repeat constructor.
  - apply StronglySorted_inv in Hs as [Hs Hall].
    destruct (leb p.1 q.1) eqn:Hpq.
    + constructor; [by constructor |]. constructor; [exact Hpq |].
      eapply Forall_impl; [exact Hall |]. intros x Hx. unfold key_le in *.
      by apply (leb_trans _ q.1).
    + constructor; [by apply IH |].
      rewrite insert_by_perm. constructor; [| exact Hall].
      unfold key_le. destruct (leb_total p.1 q.1); [congruence | assumption].
Qed.

Lemma sort_index_sorted (l : list (K * Q)) : StronglySorted (key_le leb) (sort_index leb l).
Proof.
  induction l as [| p l IH]; simpl; [constructor | by apply insert_by_sorted].
Qed.

Lemma sorted_after (l1 l2 : list (K * Q)) (x : K * Q) :
  StronglySorted (key_le leb) (l1 ++ x :: l2) -> Forall (key_le leb x) l2.
Proof.
  induction l1 as [| y l1 IH]; simpl; intros Hs;
    apply StronglySorted_inv in Hs as [Hs Hall]; [exact Hall | by apply IH].
Qed.

End Sorting.

Lemma ascii_compare_lt_trans a b c :
  Ascii.compare a b = Lt -> Ascii.compare b c = Lt -> Ascii.compare a c = Lt.
Proof.
  unfold Ascii.compare. rewrite !N.compare_lt_iff. lia.
Qed.

Lemma string_leb_trans (a b c : string) :
  String.leb a b = true -> String.leb b c = true -> String.leb a c = true.
Proof.
  unfold String.leb. revert b c.
  induction a as [| x a IH]; intros [| y b] [| z c]; simpl; try done.
  destruct (Ascii.compare x y) eqn:Hxy; [| | done].
  - apply Ascii.compare_eq_iff in Hxy as ->.
    destruct (Ascii.compare y z) eqn:Hyz; [| done | done]. apply IH.
  - destruct (Ascii.compare y z) eqn:Hyz; [| | done].
    + apply Ascii.compare_eq_iff in Hyz as ->. by rewrite Hxy.
    + by rewrite (ascii_compare_lt_trans _ _ _ Hxy Hyz).
Qed.

Lemma period_leb_total (a b : period) : period_leb a b = true \/ period_leb b a = true.
Proof. unfold period_leb. destruct a, b; simpl. lia. Qed.

Lemma period_leb_trans (a b c : period) :
  period_leb a b = true -> period_leb b c = true -> period_leb a c = true.
Proof. unfold period_leb. destruct a, b, c; simpl. lia. Qed.

(** ** The first greatest entry *)

Lemma idxmax_from_first {K} (bk : K) (bv : Q) (s : list (K * Q)) :
  exists pre v post,
    (bk, bv) :: s = (pre ++ (idxmax_from bk bv s, v) :: post)%list /\
    Forall (fun q => (q.2 < v)%Q) pre /\
    Forall (fun q => (q.2 <= v)%Q) post /\
    (bv <= v)%Q.
Proof.
  revert bk bv. induction s as [| [k v] s IH]; intros bk bv; simpl.
  - exists [], bv, []. split; [reflexivity |]. split; [constructor |].
    split; [constructor | lra].
  - destruct (Qle_bool v bv) eqn:Hle.
    + apply Qle_bool_iff in Hle.
      destruct (IH bk bv) as (pre & m & post & Heq & Hpre & Hpost & Hb).
      destruct pre as [| p0 pre]; simpl in Heq.
      * injection Heq as <- <- <-. exists [], bv, ((k, v) :: s).
        split; [reflexivity |]. split; [constructor |].
        split; [| lra]. constructor; [exact Hle | exact Hpost].
      * injection Heq as Hp Hs. subst p0.
        apply Forall_cons in Hpre as [Hp0 Hpre]. simpl in Hp0.
        exists ((bk, bv) :: (k, v) :: pre), m, post.
        split; [simpl; by rewrite Hs at 1 |]. split; [| split; [exact Hpost | exact Hb]].
        constructor; [exact Hp0 |]. constructor; [simpl; lra | exact Hpre].
    + assert (Hlt : (bv < v)%Q).
      { apply Qnot_le_lt. intros Hc. apply Qle_bool_iff in Hc. congruence. }
      destruct (IH k v) as (pre & m & post & Heq & Hpre & Hpost & Hb).
      exists ((bk, bv) :: pre), m, post. simpl. rewrite Heq.
      split; [reflexivity |]. split; [| split; [exact Hpost | lra]].
      constructor; [simpl; lra | exact Hpre].
Qed.

Lemma idxmax_first {K} (s : list (K * Q)) (k : K) :
  idxmax s = Ok k ->
  exists pre v post,
    s = (pre ++ (k, v) :: post)%list /\
    Forall (fun q => (q.2 < v)%Q) pre /\
    Forall (fun q => (q.2 <= v)%Q) post.
Proof.
  destruct s as [| [bk bv] s]; [discriminate |]. simpl. intros [= <-].
  destruct (idxmax_from_first bk bv s) as (pre & v & post & Heq & Hpre & Hpost & _).
  by exists pre, v, post.
Qed.

(** X16. Among the products whose summed sales are the greatest, the top
    product is the one whose name comes first in the order of strings: a
    product that sells as much as the top product has a name that is not
    before it. *)
Theorem top_product_tie_break (fdf : DataFrame) (p : string) :
  top_product fdf = Ok p ->
  forall r, r ∈ fdf ->
    (product_sales (product_name r) fdf == product_sales p fdf)%Q ->
    String.leb p (product_name r) = true.
Proof.
  intros Htop r Hr Htie.
  set (key := fun r : Row => Some (product_name r)) in *.
  assert (Hidx : idxmax (groupby_sum String.leb key fdf) = Ok p).
  { unfold top_product in Htop. destruct fdf; [inversion Hr | exact Htop]. }
  destruct (idxmax_first _ _ Hidx) as (pre & v & post & Heq & Hpre & Hpost).
  destruct (groupby_sum_spec key String.leb fdf) as (_ & _ & Hval).
  destruct (groupby_sum_entry key String.leb fdf r (product_name r) Hr eq_refl)
    as (v' & Hin & Hv').
  assert (Hv : (v == product_sales p fdf)%Q).
  { rewrite <- product_group_total. fold key. apply Hval. rewrite Heq.
    apply elem_of_app. right. apply list_elem_of_here. }
  rewrite product_group_total in Hv'.
  pose proof (sort_index_sorted String.leb String.leb_total string_leb_trans
                (aggregate key fdf)) as Hsorted.
  fold (groupby_sum String.leb key fdf) in Hsorted. rewrite Heq in Hsorted, Hin.
  apply elem_of_app in Hin as [Hin | Hin].
  - rewrite Forall_forall in Hpre. apply Hpre in Hin. simpl in Hin. lra.
  - apply elem_of_cons in Hin as [[= <- _] | Hin].
    + destruct (String.leb_total (product_name r) (product_name r)); assumption.
    + apply sorted_after in Hsorted. rewrite Forall_forall in Hsorted.
      apply (Hsorted _ Hin).
Qed.

Lemma top_product_tie_break_witness :
  top_product [row_us; row_eu; row_us] = Ok "gadget" /\
  forall r, r ∈ [row_us; row_eu; row_us] ->
    (product_sales (product_name r) [row_us; row_eu; row_us]
     == product_sales "gadget" [row_us; row_eu; row_us])%Q ->
    String.leb "gadget" (product_name r) = true.
Proof.
  split; [reflexivity |].
  apply (top_product_tie_break [row_us; row_eu; row_us] "gadget"). reflexivity.
Defined.

(** ** Shares *)

Lemma share_entry fdf g :
  (0 < total_sales fdf)%Q ->
  (exists r, r ∈ fdf /\ region r = Some g) ->
  (g, share_of g fdf) ∈ region_share fdf.
Proof.
  intros Hpos (r & Hr & Hg). rewrite (region_share_pos fdf Hpos).
  destruct (groupby_sum_entry region String.leb fdf r g Hr Hg) as (v & Hin & Hv).
  apply list_elem_of_fmap. exists (g, v). split; [| exact Hin].
  unfold share_of. simpl. f_equal. apply round2_comp.
  change (region_sales g fdf) with (group_total region g fdf). by rewrite Hv.
Qed.

Lemma share_entry_inv fdf g v :
  (0 < total_sales fdf)%Q ->
  (g, v) ∈ region_share fdf ->
  v = share_of g fdf /\ exists r, r ∈ fdf /\ region r = Some g.
Proof.
  intros Hpos Hin. rewrite (region_share_pos fdf Hpos) in Hin.
  apply list_elem_of_fmap in Hin as ([g1 v1] & [= -> ->] & Hin). simpl.
  destruct (groupby_sum_spec region String.leb fdf) as (_ & Hkeys & Hval). split.
  - unfold share_of. apply round2_comp.
    change (region_sales g1 fdf) with (group_total region g1 fdf).
    by rewrite (Hval g1 v1 Hin).
  - apply Hkeys, list_elem_of_fmap. by exists (g1, v1).
Qed.

Lemma shares_sorted (h : Q -> Q) (l : list (string * Q)) :
  StronglySorted (key_le String.leb) l ->
  StronglySorted (key_le String.leb) (List.map (fun g => (g.1, h g.2)) l).
Proof.
  induction 1 as [| g l Hs IH Hall]; simpl; constructor; [exact IH |].
  apply Forall_forall. intros x (y & <- & Hy)%list_elem_of_In%List.in_map_iff.
  rewrite Forall_forall in Hall. apply (Hall y). by apply list_elem_of_In.
Qed.

(** X17. Among the regions whose rounded share is the greatest, the best
    region is the one whose name comes first in the order of strings. *)
Theorem best_region_tie_break (fdf : DataFrame) (g : string) :
  (0 < total_sales fdf)%Q ->
  best_region fdf = Ok g ->
  forall g', (exists r, r ∈ fdf /\ region r = Some g') ->
    (share_of g' fdf == share_of g fdf)%Q ->
    String.leb g g' = true.
Proof.
  intros Hpos Hbest g' Hg' Htie.
  pose proof (share_entry fdf g' Hpos Hg') as Hin.
  assert (Hidx : idxmax (region_share fdf) = Ok g).
  { unfold best_region in Hbest. destruct (region_share fdf); [inversion Hin | exact Hbest]. }
  destruct (idxmax_first _ _ Hidx) as (pre & v & post & Heq & Hpre & Hpost).
  assert (Hv : v = share_of g fdf).
  { apply (share_entry_inv fdf g v Hpos). rewrite Heq.
    apply elem_of_app. right. apply list_elem_of_here. }
  assert (Hsorted : StronglySorted (key_le String.leb) (region_share fdf)).
  { rewrite (region_share_pos fdf Hpos).
    apply (shares_sorted (fun v => round2 (v / total_sales fdf * 100))).
    apply (sort_index_sorted String.leb String.leb_total string_leb_trans). }
  rewrite Heq in Hsorted, Hin. apply elem_of_app in Hin as [Hin | Hin].
  - rewrite Forall_forall in Hpre. apply Hpre in Hin. simpl in Hin. subst v. lra.
  - apply elem_of_cons in Hin as [[= <- _] | Hin].
    + destruct (String.leb_total g' g'); assumption.
    + apply sorted_after in Hsorted. rewrite Forall_forall in Hsorted.
      apply (Hsorted _ Hin).
Qed.

Lemma best_region_tie_break_witness :
  (0 < total_sales [row_us; row_eu; row_us])%Q /\
  best_region [row_us; row_eu; row_us] = Ok "EU" /\
  forall g', (exists r, r ∈ [row_us; row_eu; row_us] /\ region r = Some g') ->
    (share_of g' [row_us; row_eu; row_us] == share_of "EU" [row_us; row_eu; row_us])%Q ->
    String.leb "EU" g' = true.
Proof.
  split; [reflexivity |]. split; [reflexivity |].
  apply (best_region_tie_break [row_us; row_eu; row_us] "EU"); reflexivity.
Defined.

Lemma sum_exact_shares (T : Q) (l : list (string * Q)) :
  (series_sum (List.map (fun g => g.2 / T * 100) l) == series_sum l.*2 / T * 100)%Q.
Proof.
  induction l as [| [k v] l IH].
  - cbn [List.map fmap list_fmap series_sum fold_right]. unfold Qdiv. ring.
  - change (((k, v) :: l).*2) with (v :: l.*2). cbn [List.map snd].
    rewrite !series_sum_cons, IH. unfold Qdiv. ring.
Qed.

Lemma sum_rounded_shares (T : Q) (l : list (string * Q)) :
  (- (inject_Z (Z.of_nat (length l)) * (1 # 200))
   <= series_sum (List.map (fun g => round2 (g.2 / T * 100)) l)
      - series_sum (List.map (fun g => g.2 / T * 100) l)
   <= inject_Z (Z.of_nat (length l)) * (1 # 200))%Q.
Proof.
  induction l as [| [k v] l IH].
  - cbn [List.map series_sum fold_right length].
    change (inject_Z (Z.of_nat 0)) with 0%Q. split; lra.
  - cbn [List.map snd length]. rewrite !series_sum_cons.
    rewrite Nat2Z.inj_succ, <- Z.add_1_r, inject_Z_plus.
    change (inject_Z 1) with 1%Q.
    pose proof (round2_near (v / T * 100)) as Hr.
    set (n := inject_Z (Z.of_nat (length l))) in *.
    set (S1 := series_sum (List.map (fun g => round2 _) l)) in *.
    set (S2 := series_sum (List.map _ l)) in *.
    set (x := (v / T * 100)%Q) in *. set (y := round2 x) in *.
    split; lra.
Qed.

Lemma values_of_shares (h : Q -> Q) (l : list (string * Q)) :
  (List.map (fun g => (g.1, h g.2)) l).*2 = List.map (fun g => h g.2) l.
Proof. induction l as [| g l IH]; csimpl; [reflexivity | by rewrite IH]. Qed.

Lemma region_totals_add_up df sel fdf :
  filtered_df df sel = Ok fdf ->
  (series_sum (groupby_sum String.leb region fdf).*2 == total_sales fdf)%Q.
Proof.
  intros Hf. apply groupby_sum_total. intros r Hr.
  by destruct (filtered_not_null _ _ _ Hf r Hr) as (? & _).
Qed.

(** X18. On a filtered subset with positive total sales the percentage
    shares of the regions add up to 100 up to their rounding: the sum is
    within (number of regions) * 0.005 of 100. *)
Theorem shares_add_up_to_100 (df : DataFrame) (sel : Selection) (fdf : DataFrame) :
  filtered_df df sel = Ok fdf ->
  (0 < total_sales fdf)%Q ->
  (Qabs (series_sum (region_share fdf).*2 - 100)
   <= inject_Z (Z.of_nat (length (region_share fdf))) * (1 # 200))%Q.
Proof.
  intros Hf Hpos. rewrite (region_share_pos fdf Hpos).
  rewrite (values_of_shares (fun v => round2 (v / total_sales fdf * 100))), length_map.
  pose proof (sum_rounded_shares (total_sales fdf) (groupby_sum String.leb region fdf)) as Hb.
  rewrite sum_exact_shares, (region_totals_add_up _ _ _ Hf) in Hb.
  assert (H100 : (total_sales fdf / total_sales fdf * 100 == 100)%Q) by (field; lra).
  rewrite H100 in Hb. by apply Qabs_Qle_condition.
Qed.

Lemma shares_add_up_to_100_witness :
  filtered_df [row_eu; row_us] select_all = Ok [row_eu; row_us] /\
  (0 < total_sales [row_eu; row_us])%Q /\
  (Qabs (series_sum (region_share [row_eu; row_us]).*2 - 100)
   <= inject_Z (Z.of_nat (length (region_share [row_eu; row_us]))) * (1 # 200))%Q.
Proof.
  split; [reflexivity |]. split; [reflexivity |].
  apply (shares_add_up_to_100 [row_eu; row_us] select_all [row_eu; row_us]); reflexivity.
Defined.

Lemma round2_range (x : Q) : (0 <= x <= 100)%Q -> (0 <= round2 x <= 100)%Q.
Proof.
  intros [Hlo Hhi]. pose proof (rint_near (x * 100)) as [Hn1 Hn2].
  unfold round2. set (n := rint (x * 100)) in *.
  assert (Hz : (0 <= n <= 10000)%Z).
  { split.
    - destruct (Z_le_gt_dec 0 n) as [H | H]; [exact H |].
      assert (Hq : (inject_Z n <= inject_Z (-1))%Q) by (rewrite <- Zle_Qle; lia).
      change (inject_Z (-1)) with (-1)%Q in Hq. lra.
    - destruct (Z_le_gt_dec n 10000) as [H | H]; [exact H |].
      assert (Hq : (inject_Z 10001 <= inject_Z n)%Q) by (rewrite <- Zle_Qle; lia).
      change (inject_Z 10001) with 10001%Q in Hq. lra. }
  destruct Hz as [Hz1 Hz2]. rewrite Zle_Qle in Hz1, Hz2.
  change (inject_Z 0) with 0%Q in Hz1. change (inject_Z 10000) with 10000%Q in Hz2.
  unfold Qdiv. change (/ 100)%Q with (1 # 100)%Q. split; lra.
Qed.

Lemma series_sum_nonneg (l : list Q) :
  Forall (fun v => (0 <= v)%Q) l -> (0 <= series_sum l)%Q.
Proof.
  induction 1 as [| v l Hv Hl IH]; [cbn; lra |]. rewrite series_sum_cons. lra.
Qed.

Lemma series_sum_elem_le (l : list Q) (v : Q) :
  Forall (fun v => (0 <= v)%Q) l -> v ∈ l -> (v <= series_sum l)%Q.
Proof.
  induction 1 as [| w l Hw Hl IH]; intros Hin; [inversion Hin |].
  rewrite series_sum_cons. pose proof (series_sum_nonneg l Hl).
  apply elem_of_cons in Hin as [-> | Hin]; [lra | specialize (IH Hin); lra].
Qed.

(** X19. When no row of the filtered subset has a negative amount and the
    total is positive, every region's share is a percentage between 0 and
    100. *)
Theorem shares_are_percentages (df : DataFrame) (sel : Selection) (fdf : DataFrame) :
  filtered_df df sel = Ok fdf ->
  (0 < total_sales fdf)%Q ->
  (forall r, r ∈ fdf -> (0 <= sales r)%Q) ->
  forall g v, (g, v) ∈ region_share fdf -> (0 <= v <= 100)%Q.
Proof.
  intros Hf Hpos Hnn g v Hin. rewrite (region_share_pos fdf Hpos) in Hin.
  apply list_elem_of_fmap in Hin as ([g1 v1] & [= -> ->] & Hin). simpl.
  destruct (groupby_sum_spec region String.leb fdf) as (_ & _ & Hval).
  assert (Hall : Forall (fun v => (0 <= v)%Q) (groupby_sum String.leb region fdf).*2).
  { apply Forall_forall. intros w ([k w'] & -> & Hk)%list_elem_of_fmap. simpl.
    rewrite (Hval k w' Hk). unfold group_total. apply series_sum_nonneg.
    apply Forall_forall. intros s (r & <- & Hr)%list_elem_of_In%List.in_map_iff.
    apply Hnn. apply list_elem_of_In in Hr. by apply list_elem_of_filter in Hr as [_ Hr]. }
  assert (Hv0 : (0 <= v1)%Q).
  { rewrite Forall_forall in Hall. apply Hall. apply list_elem_of_fmap. by exists (g1, v1). }
  assert (Hv1 : (v1 <= total_sales fdf)%Q).
  { rewrite <- (region_totals_add_up _ _ _ Hf). apply series_sum_elem_le; [exact Hall |].
    apply list_elem_of_fmap. by exists (g1, v1). }
  apply round2_range.
  set (T := total_sales fdf) in *.
  assert (Hx : (v1 / T * 100 == 100 * (v1 / T))%Q) by ring.
  assert (H0 : (0 <= v1 / T)%Q).
  { apply Qle_shift_div_l; [exact Hpos | lra]. }
  assert (H1 : (v1 / T <= 1)%Q).
  { apply Qle_shift_div_r; [exact Hpos | lra]. }
  rewrite Hx. split; lra.
Qed.

Lemma shares_are_percentages_witness :
  filtered_df [row_eu; row_us] select_all = Ok [row_eu; row_us] /\
  (0 < total_sales [row_eu; row_us])%Q /\
  forall g v, (g, v) ∈ region_share [row_eu; row_us] -> (0 <= v <= 100)%Q.
Proof.
  split; [reflexivity |]. split; [reflexivity |].
  apply (shares_are_percentages [row_eu; row_us] select_all [row_eu; row_us]);
    [reflexivity | reflexivity |].
  intros r [-> | [-> | H]%elem_of_cons]%elem_of_cons;
    [discriminate | discriminate | inversion H].
Defined.

(** ** Charts *)

(** X20. On a filtered subset with a row the page shows the two charts and
    no empty-state message; the bar chart has one bar for each region
    present, in the order of the region names, each bar is the summed sales
    of its region, and the bars add up to the total sales. *)
Theorem region_chart_bars (df : DataFrame) (sel : Selection) (fdf : DataFrame) :
  filtered_df df sel = Ok fdf ->
  fdf <> [] ->
  exists bars,
    charts fdf
    = [ st_plotly_chart (px_bar "region" "sales" "Sales by Region" bars);
        st_plotly_chart (px_line "order_date" "sales" "Monthly Sales Trend"
                                 (monthly_sales fdf)) ] /\
    NoDup bars.*1 /\
    StronglySorted (key_le String.leb) bars /\
    (forall g, g ∈ bars.*1 <-> exists r, r ∈ fdf /\ region r = Some g) /\
    (forall g v, (g, v) ∈ bars -> (v == region_sales g fdf)%Q) /\
    (series_sum bars.*2 == total_sales fdf)%Q.
Proof.
  intros Hf Hne. exists (groupby_sum String.leb region fdf).
  destruct (groupby_sum_spec region String.leb fdf) as (Hnd & Hkeys & Hval).
  split; [destruct fdf; [done | reflexivity] |].
  split; [exact Hnd |].
  split; [apply (sort_index_sorted String.leb String.leb_total string_leb_trans) |].
  split; [exact Hkeys |]. split; [exact Hval |].
  by apply (region_totals_add_up df sel).
Qed.

Lemma region_chart_bars_witness :
  filtered_df [row_eu; row_us] select_all = Ok [row_eu; row_us] /\
  [row_eu; row_us] <> [] /\
  exists bars,
    charts [row_eu; row_us]
    = [ st_plotly_chart (px_bar "region" "sales" "Sales by Region" bars);
        st_plotly_chart (px_line "order_date" "sales" "Monthly Sales Trend"
                                 (monthly_sales [row_eu; row_us])) ] /\
    NoDup bars.*1 /\
    StronglySorted (key_le String.leb) bars /\
    (forall g, g ∈ bars.*1 <-> exists r, r ∈ [row_eu; row_us] /\ region r = Some g) /\
    (forall g v, (g, v) ∈ bars -> (v == region_sales g [row_eu; row_us])%Q) /\
    (series_sum bars.*2 == total_sales [row_eu; row_us])%Q.
Proof.
  split; [reflexivity |]. split; [discriminate |].
  apply (region_chart_bars [row_eu; row_us] select_all [row_eu; row_us]);
    [reflexivity | discriminate].
Defined.

Lemma values_of_labelled {K} (f : K -> string) (l : list (K * Q)) :
  (List.map (fun g => (f g.1, g.2)) l).*2 = l.*2.
Proof. induction l as [| g l IH]; csimpl; [reflexivity | by rewrite IH]. Qed.

(** X21. The monthly trend has one point for each calendar month in which
    the filtered subset has a row, the months in chronological order, each
    labelled by its year and month, and the points add up to the total
    sales. *)
Theorem monthly_chart_points (df : DataFrame) (sel : Selection) (fdf : DataFrame) :
  filtered_df df sel = Ok fdf ->
  exists months : list (period * Q),
    monthly_sales fdf = List.map (fun g => (period_str g.1, g.2)) months /\
    NoDup months.*1 /\
    StronglySorted (key_le period_leb) months /\
    (forall p, p ∈ months.*1 <->
       exists r t, r ∈ fdf /\ order_date r = Some t /\ p = (year t, month t)) /\
    (series_sum (monthly_sales fdf).*2 == total_sales fdf)%Q.
Proof.
  intros Hf.
  set (key := fun r : Row => to_period_M <$> order_date r).
  exists (groupby_sum period_leb key fdf).
  destruct (groupby_sum_spec key period_leb fdf) as (Hnd & Hkeys & _).
  split; [reflexivity |]. split; [exact Hnd |].
  split; [apply (sort_index_sorted period_leb period_leb_total period_leb_trans) |].
  split.
  - intros p. rewrite Hkeys. unfold key. split.
    + intros (r & Hr & Hk). destruct (order_date r) as [t |] eqn:Ht; [| discriminate].
      injection Hk as <-. by exists r, t.
    + intros (r & t & Hr & Ht & ->). exists r. split; [exact Hr |]. by rewrite Ht.
  - unfold monthly_sales. fold key. rewrite values_of_labelled.
    apply groupby_sum_total. intros r Hr.
    destruct (filtered_not_null _ _ _ Hf r Hr) as (_ & _ & [t Ht]).
    unfold key. rewrite Ht. by eexists.
Qed.

Lemma monthly_chart_points_witness :
  filtered_df [row_eu; row_us] select_all = Ok [row_eu; row_us] /\
  exists months : list (period * Q),
    monthly_sales [row_eu; row_us] = List.map (fun g => (period_str g.1, g.2)) months /\
    NoDup months.*1 /\
    StronglySorted (key_le period_leb) months /\
    (forall p, p ∈ months.*1 <->
       exists r t, r ∈ [row_eu; row_us] /\ order_date r = Some t /\ p = (year t, month t)) /\
    (series_sum (monthly_sales [row_eu; row_us]).*2 == total_sales [row_eu; row_us])%Q.
Proof.
  split; [reflexivity |].
  apply (monthly_chart_points [row_eu; row_us] select_all [row_eu; row_us]). reflexivity.
Defined.

(** ** The other metrics *)

(** X22. The average order value is NaN exactly on the empty subset;
    otherwise it is the amount which, times the number of rows, gives the
    total sales. *)
Theorem average_times_count (fdf : DataFrame) :
  (avg_order_value fdf = None <-> fdf = []) /\
  forall a, avg_order_value fdf = Some a ->
    (a * inject_Z (Z.of_nat (length fdf)) == total_sales fdf)%Q.
Proof.
  unfold avg_order_value, series_mean, total_sales. split.
  - destruct fdf; simpl; split; done.
  - intros a Ha. destruct fdf as [| r fdf]; [discriminate |].
    injection Ha as <-. rewrite length_map.
    set (T := series_sum _). set (n := inject_Z _).
    assert (Hn : ~ (n == 0)%Q).
    { subst n. intros Hz. unfold Qeq, inject_Z in Hz. cbn [Qnum Qden length] in Hz. lia. }
    change (series_sum (List.map sales (r :: fdf))) with (sales r + T)%Q.
    field. exact Hn.
Qed.

(** X23. The customers metric counts each customer of the filtered subset
    once: it is the length of any list that names every customer of the
    subset exactly once, so it is at most the number of rows, and it is 0
    only on the empty subset. *)
Theorem unique_customers_counts_distinct (fdf : DataFrame) :
  (forall ids : list string,
     NoDup ids ->
     (forall c, c ∈ ids <-> exists r, r ∈ fdf /\ customer_id r = c) ->
     unique_customers fdf = length ids) /\
  (unique_customers fdf <= length fdf)%nat /\
  (unique_customers fdf = 0%nat <-> fdf = []).
Proof.
  unfold unique_customers, nunique.
  destruct (unique_spec (List.map customer_id fdf)) as [Hnd Hmem].
  split; [| split].
  - intros ids Hids Hc. apply Permutation_length, NoDup_Permutation; [exact Hnd | exact Hids |].
    intros c. by rewrite Hmem, Hc, elem_of_map_field.
  - rewrite <- (length_map customer_id fdf). apply submseteq_length.
    apply NoDup_submseteq; [exact Hnd |]. intros c. by rewrite Hmem.
  - split.
    + intros H0. destruct fdf as [| r fdf]; [reflexivity |].
      assert (Hin : customer_id r ∈ unique (List.map customer_id (r :: fdf)))
        by (apply Hmem; apply list_elem_of_here).
      apply length_zero_iff_nil in H0. rewrite H0 in Hin. inversion Hin.
    + by intros ->.
Qed.

Lemma unique_customers_counts_distinct_witness :
  NoDup ["c2"; "c1"] /\
  unique_customers [row_us; row_eu; row_us] = length ["c2"; "c1"].
Proof.
  assert (Hnd : NoDup ["c2"; "c1"]) by (apply NoDup_ListNoDup; repeat constructor;
    simpl; intuition discriminate).
  split; [exact Hnd |].
  apply (proj1 (unique_customers_counts_distinct [row_us; row_eu; row_us])); [exact Hnd |].
  intros c. rewrite <- (elem_of_map_field customer_id).
  change (List.map customer_id [row_us; row_eu; row_us]) with ["c2"; "c1"; "c2"].
  rewrite !elem_of_cons, !elem_of_nil. tauto.
Defined.

(** ** The page *)

Lemma top_product_ok fdf : exists tp, top_product fdf = Ok tp.
Proof.
  unfold top_product. destruct fdf as [| r fdf]; simpl; [by eexists |].
  set (key := fun r : Row => Some (product_name r)).
  destruct (groupby_sum_entry key String.leb (r :: fdf) r (product_name r))
    as (v & Hin & _); [apply list_elem_of_here | reflexivity |].
  destruct (groupby_sum String.leb key (r :: fdf)) as [| [k w] g]; [inversion Hin |].
  by eexists.
Qed.

Lemma best_region_ok fdf : exists br, best_region fdf = Ok br.
Proof.
  unfold best_region. destruct (region_share fdf) as [| [k w] g]; simpl; by eexists.
Qed.

(** X24. Once the date control has given two dates, the filter and the
    metrics raise nothing, whatever the table and the selection. When the
    filtered subset has no more rows than a sheet holds, the page below the
    controls is drawn in full: the five metrics in their order, then the two
    charts when the subset has a row and the empty-state message alone when
    it has none, then the export controls, which carry the filtered subset.
    When the subset has more rows than a sheet holds, the script stops with
    the exception of the spreadsheet writer. *)
Theorem page_renders (df : DataFrame) (sel : Selection) (d1 d2 : Timestamp) :
  date_range sel !! 0%nat = Some d1 ->
  date_range sel !! 1%nat = Some d2 ->
  exists fdf tp br,
    filtered_df df sel = Ok fdf /\
    top_product fdf = Ok tp /\
    best_region fdf = Ok br /\
    ((Z.of_nat (length fdf) <= excel_max_rows)%Z ->
     page df sel
     = Ok ([ st_metric "Total Sales" (fmt_money (Some (total_sales fdf)));
             st_metric "Avg Order Value" (fmt_money (avg_order_value fdf));
             st_metric "Customers" (pretty (unique_customers fdf));
             st_metric "Top Product" tp;
             st_metric "Best Region" br ]
           ++ charts fdf ++ exports fdf)%list) /\
    ((excel_max_rows < Z.of_nat (length fdf))%Z ->
     exists e, to_excel "Sales" fdf = Raise e /\ page df sel = Raise e) /\
    (fdf = [] -> charts fdf = [st_warning "No data matches the selected filters."]) /\
    (fdf <> [] -> length (charts fdf) = 2%nat
                  /\ forallb is_chart (charts fdf) = true).
Proof.
  intros H0 H1.
  pose proof (filtered_df_lookup df sel d1 d2 H0 H1) as Hf.
  set (fdf := List.filter _ df) in Hf.
  destruct (top_product_ok fdf) as [tp Htp]. destruct (best_region_ok fdf) as [br Hbr].
  exists fdf, tp, br. split; [exact Hf |]. split; [exact Htp |]. split; [exact Hbr |].
  split; [| split; [| split]].
  - intros Hfit. unfold page, kpis. rewrite Hf. simpl. rewrite Htp, Hbr. simpl.
    unfold to_excel. destruct (excel_max_rows <? Z.of_nat (length fdf))%Z eqn:Hc; [lia |].
    reflexivity.
  - intros Hbig. unfold page, kpis. rewrite Hf. simpl. rewrite Htp, Hbr. simpl.
    unfold to_excel. destruct (excel_max_rows <? Z.of_nat (length fdf))%Z eqn:Hc; [| lia].
    eexists. split; reflexivity.
  - by intros ->.
  - intros Hne. unfold charts. destruct fdf; [done | split; reflexivity].
Qed.

Lemma page_renders_witness :
  date_range select_all !! 0%nat = Some (mkTimestamp 2024 1 1) /\
  date_range select_all !! 1%nat = Some (mkTimestamp 2024 12 31) /\
  exists fdf tp br,
    filtered_df [row_eu; row_nat; row_us] select_all = Ok fdf /\
    top_product fdf = Ok tp /\
    best_region fdf = Ok br /\
    ((Z.of_nat (length fdf) <= excel_max_rows)%Z ->
     page [row_eu; row_nat; row_us] select_all
     = Ok ([ st_metric "Total Sales" (fmt_money (Some (total_sales fdf)));
             st_metric "Avg Order Value" (fmt_money (avg_order_value fdf));
             st_metric "Customers" (pretty (unique_customers fdf));
             st_metric "Top Product" tp;
             st_metric "Best Region" br ]
           ++ charts fdf ++ exports fdf)%list) /\
    ((excel_max_rows < Z.of_nat (length fdf))%Z ->
     exists e, to_excel "Sales" fdf = Raise e
               /\ page [row_eu; row_nat; row_us] select_all = Raise e) /\
    (fdf = [] -> charts fdf = [st_warning "No data matches the selected filters."]) /\
    (fdf <> [] -> length (charts fdf) = 2%nat
                  /\ forallb is_chart (charts fdf) = true).
Proof.
  split; [reflexivity |]. split; [reflexivity |].
  apply (page_renders [row_eu; row_nat; row_us] select_all
           (mkTimestamp 2024 1 1) (mkTimestamp 2024 12 31)); reflexivity.
Defined.

(** ** Amounts as text *)

Lemma rint_of_Z (n : Z) : rint (inject_Z n) = n.
Proof.
  unfold rint. rewrite Qfloor_Z.
  assert (Hlt : (inject_Z n - inject_Z n < 1 # 2)%Q).
  { set (x := inject_Z n). lra. }
  assert (Hc : (inject_Z n - inject_Z n ?= 1 # 2)%Q = Lt) by (by apply Qlt_alt).
  by rewrite Hc.
Qed.

(** X25. A whole, non-negative amount is shown as a dollar sign, its digits
    with the thousands separators, and ".00". *)
Theorem fmt_money_whole (n : Z) :
  (0 <= n)%Z ->
  fmt_money (Some (inject_Z n))
  = "$" +:+ string_of_list_ascii (commas (list_ascii_of_string (pretty n))) +:+ ".00".
Proof.
  intros Hn. unfold fmt_money, fmt_comma_2f.
  assert (Hpos : Qle_bool 0 (inject_Z n) = true).
  { apply Qle_bool_iff. change 0%Q with (inject_Z 0). rewrite <- Zle_Qle. exact Hn. }
  rewrite Hpos.
  assert (Hr : rint (Qabs (inject_Z n) * 100) = (n * 100)%Z).
  { rewrite <- (rint_of_Z (n * 100)). apply rint_comp.
    rewrite Qabs_pos by (by apply Qle_bool_iff).
    rewrite inject_Z_mult. reflexivity. }
  rewrite Hr, Z.div_mul by lia. rewrite Z.mod_mul by lia. reflexivity.
Qed.

Lemma fmt_money_whole_witness :
  (0 <= 1234567)%Z /\ fmt_money (Some (inject_Z 1234567)) = "$1,234,567.00".
Proof.
  split; [lia |].
  exact (fmt_money_whole 1234567 ltac:(lia)).
Defined.

End AppMore.
